(** * pwned_checker: the sharded Bloom filter of [src/bloom_filter.c]

    A shallow embedding of the C translation unit and the properties of its
    shard planner, its filters and its population loop.

    Conventions of the embedding.
    - C integers are [Z]; every conversion to a fixed-width type is written
      out ([to_size_t], [to_uint32], [to_uint8], [to_int]).  The data model is
      LP64: [size_t] has 64 bits, [int] has 32.
    - An array is a list read with [!!] and written with [<[ _ := _ ]>]; an
      access outside the array is undefined behaviour in C and is [None] here.
    - A [char] buffer is a list of [cell]s; a cell that was never written holds
      no value, and reading it is undefined as well. *)

From Stdlib Require Import ZArith Lia List.
From Stdlib.Strings Require Import Byte.
From Stdlib.Strings Require String.
From stdpp Require Import base option list gmap.

Local Open Scope Z_scope.

(** ** Fixed-width integers *)

Definition to_size_t (z : Z) : Z := z mod 2 ^ 64.
Definition to_uint32 (z : Z) : Z := z mod 2 ^ 32.
Definition to_uint8 (z : Z) : Z := z mod 2 ^ 8.

(** Conversion of an out-of-range value to [int] is implementation-defined;
    this is the two's complement reduction every mainstream compiler uses. *)
Definition to_int (z : Z) : Z :=
  let r := z mod 2 ^ 32 in if r <? 2 ^ 31 then r else r - 2 ^ 32.

Definition SIZE_MAX : Z := 2 ^ 64 - 1.
Definition INT_MAX : Z := 2 ^ 31 - 1.

(** ** Characters and buffers *)

(** A memory cell of a [char] array: [None] is an indeterminate value. *)
Definition cell : Type := option byte.

Definition is_nul (c : byte) : bool := Byte.eqb c x00.
Definition is_newline (c : byte) : bool := Byte.eqb c x0a.

(** Writes [bs] at the start of [buf]. *)
Definition store_bytes (buf : list cell) (bs : list byte) : list cell :=
  (Some <$> bs) ++ drop (length bs) buf.

(** [strlen]: the number of characters before the terminator.  A key is given
    as the list of bytes its pointer points to; the end of the list stands for
    the terminator when no NUL occurs earlier. *)
Fixpoint strlen (data : list byte) : nat :=
  match data with
  | [] => 0%nat
  | c :: rest => if is_nul c then 0%nat else S (strlen rest)
  end.

(** The characters [fgets] takes from the stream: at most [n], stopping after
    a newline or at the end of the stream. *)
Fixpoint read_line (n : nat) (stream : list byte) : list byte * list byte :=
  match n, stream with
  | S n', c :: stream' =>
      if is_newline c then ([c], stream')
      else let '(l, rest) := read_line n' stream' in (c :: l, rest)
  | _, _ => ([], stream)
  end.

(** [fgets(str, n, stream)]: [None] is the NULL returned at end of file; the
    buffer is then left as it was.  Otherwise the characters read and a
    terminator are stored at the start of [str]. *)
Definition fgets (str : list cell) (n : nat) (stream : list byte)
  : option (list cell * list byte) :=
  match stream with
  | [] => None
  | _ :: _ =>
      let '(l, rest) := read_line (n - 1) stream in
      Some (store_bytes str (l ++ [x00]), rest)
  end.

(** The [n] bytes [strncpy] writes: the characters of [src] up to its
    terminator, then NULs.  It reads [src] one cell at a time and stops at the
    terminator; reading an indeterminate cell or past the array is undefined. *)
Fixpoint strncpy_bytes (src : list cell) (n : nat) {struct n}
  : option (list byte) :=
  match n with
  | O => Some []
  | S n' =>
      match src with
      | Some c :: src' =>
          if is_nul c then Some (replicate (S n') x00)
          else cons c <$> strncpy_bytes src' n'
      | _ => None
      end
  end.

Definition strncpy (dest src : list cell) (n : nat) : option (list cell) :=
  bs ← strncpy_bytes src n; Some (store_bytes dest bs).

(** Reads a NUL-terminated string out of a buffer, as a callee that receives
    the pointer does. *)
Fixpoint load_string (buf : list cell) : option (list byte) :=
  match buf with
  | Some c :: rest => if is_nul c then Some [] else cons c <$> load_string rest
  | _ => None
  end.

(** ** The filter *)

(** Modelled from the spec: the declaration of [struct BloomFilter] is in
    [bloom_filter.h], which is not part of the sources.  The fields are the
    ones the code uses; [size] is the spec's [capacity_bits] and [count] the
    spec's [inserted_count], a counter of insert operations. *)
Record BloomFilter : Type := mkBloomFilter {
  bit_array : list Z;
  size : Z;
  count : Z
}.

(** Outcome of the two allocations of [create_bloom_filter]. *)
Record allocator : Type := mkAllocator {
  malloc_ok : bool;
  calloc_ok : bool
}.

(** [bit_array[index / 8] |= (1 << (index % 8))] *)
Definition set_bit (bit_array : list Z) (index : Z) : option (list Z) :=
  let i := Z.to_nat (index / 8) in
  b ← bit_array !! i;
  Some (<[i := to_uint8 (Z.lor b (Z.shiftl 1 (index mod 8)))]> bit_array).

(** [bit_array[index / 8] & (1 << (index % 8))], an [int] that is zero or the
    mask of the bit. *)
Definition get_bit (bit_array : list Z) (index : Z) : option Z :=
  b ← bit_array !! Z.to_nat (index / 8);
  Some (Z.land b (Z.shiftl 1 (index mod 8))).

Definition create_bloom_filter (a : allocator) (size : Z) : option BloomFilter :=
  if negb (malloc_ok a) then None
  else if negb (calloc_ok a) then None
  else Some {| bit_array := replicate (Z.to_nat (size / 8)) 0;
               size := size;
               count := 0 |}.

Definition bloom_filter_is_full (filter : BloomFilter) : bool :=
  size filter / 8 <=? count filter.

(** ** Allocation

    The heap as far as [malloc], [calloc] and [free] go: the set of the
    blocks that are live.  An allocation that succeeds returns a block that
    was not live; freeing a block that is not live is undefined. *)

Definition malloc (ok : bool) (h : gset nat) : option nat * gset nat :=
  if ok then (Some (fresh h), {[fresh h]} ∪ h) else (None, h).

Definition free (p : nat) (h : gset nat) : option (gset nat) :=
  if decide (p ∈ h) then Some (h ∖ {[p]}) else None.

(** What a non-null [BloomFilter *] designates: the block of the structure
    and the block its [bit_array] field points to. *)
Record filter_ptr : Type := mkFilterPtr {
  struct_block : nat;
  array_block : nat
}.

(** The allocations of [create_bloom_filter]: the pointer returned, [None]
    for NULL, and the heap left.  The outer [None] is undefined behaviour. *)
Definition create_bloom_filter_blocks (a : allocator) (h : gset nat)
  : option (option filter_ptr * gset nat) :=
  match malloc (malloc_ok a) h with
  | (None, h1) => Some (None, h1)
  | (Some filter, h1) =>
      match malloc (calloc_ok a) h1 with
      | (None, h2) => h3 ← free filter h2; Some (None, h3)
      | (Some bits, h2) =>
          Some (Some {| struct_block := filter; array_block := bits |}, h2)
      end
  end.

(** [free(filter->bit_array); free(filter);], the first of which reads a
    field of the structure. *)
Definition free_bloom_filter (filter : option filter_ptr) (h : gset nat)
  : option (gset nat) :=
  match filter with
  | None => None
  | Some p =>
      if decide (struct_block p ∈ h)
      then h1 ← free (array_block p) h; free (struct_block p) h1
      else None
  end.

(** What a run of the loop ends in: its final state, undefined behaviour, or
    an exhausted iteration budget. *)
Inductive outcome (A : Type) : Type :=
  | Done (a : A)
  | Undefined
  | OutOfFuel.
Arguments Done {A} a.
Arguments Undefined {A}.
Arguments OutOfFuel {A}.

(** The variables of [populate_recursive_bloom_filters].  [filters] holds the
    filters the array of pointers points to and [pwned_file] what is left to
    read of the file.  [inserted] is a ghost field, absent from the C code: the
    calls of [bloom_insert] made so far, each with the index used and the key
    passed, most recent first. *)
Record pop_state : Type := mkPopState {
  filters : list BloomFilter;
  pwned_file : list byte;
  current_filter : Z;
  line : list cell;
  hash_prefix : list cell;
  inserted : list (Z * list byte)
}.

(** [get_file_size]: [st] is the size [stat] reports, [None] when it fails. *)
Definition get_file_size (st : option Z) : Z :=
  match st with
  | Some st_size => to_size_t st_size
  | None => 0
  end.

(** ** The hash function of the xxHash library

    [XXH32] is not part of the sources; the development is stated for any
    hash function.  This is the published 32-bit algorithm, used to evaluate
    the code on concrete keys. *)
Module XXHash.

Definition PRIME32_1 : Z := 0x9E3779B1.
Definition PRIME32_2 : Z := 0x85EBCA77.
Definition PRIME32_3 : Z := 0xC2B2AE3D.
Definition PRIME32_4 : Z := 0x27D4EB2F.
Definition PRIME32_5 : Z := 0x165667B1.

Definition u8 (b : byte) : Z := Z.of_N (Byte.to_N b).

Definition rotl32 (x r : Z) : Z :=
  to_uint32 (Z.lor (Z.shiftl x r) (Z.shiftr x (32 - r))).

Definition read32le (a b c d : byte) : Z :=
  Z.lor (u8 a)
    (Z.lor (Z.shiftl (u8 b) 8) (Z.lor (Z.shiftl (u8 c) 16) (Z.shiftl (u8 d) 24))).

Definition round (acc input : Z) : Z :=
  to_uint32 (rotl32 (to_uint32 (acc + input * PRIME32_2)) 13 * PRIME32_1).

Fixpoint stripes (v : Z * Z * Z * Z) (p : list byte)
  : (Z * Z * Z * Z) * list byte :=
  match p with
  | a0 :: a1 :: a2 :: a3 :: b0 :: b1 :: b2 :: b3 ::
    c0 :: c1 :: c2 :: c3 :: d0 :: d1 :: d2 :: d3 :: rest =>
      let '(v1, v2, v3, v4) := v in
      stripes (round v1 (read32le a0 a1 a2 a3), round v2 (read32le b0 b1 b2 b3),
               round v3 (read32le c0 c1 c2 c3), round v4 (read32le d0 d1 d2 d3))
        rest
  | _ => (v, p)
  end.

Fixpoint finalize4 (h : Z) (p : list byte) : Z * list byte :=
  match p with
  | a :: b :: c :: d :: rest =>
      finalize4
        (to_uint32 (rotl32 (to_uint32 (h + read32le a b c d * PRIME32_3)) 17
                    * PRIME32_4)) rest
  | _ => (h, p)
  end.

Fixpoint finalize1 (h : Z) (p : list byte) : Z :=
  match p with
  | a :: rest =>
      finalize1
        (to_uint32 (rotl32 (to_uint32 (h + u8 a * PRIME32_5)) 11 * PRIME32_1))
        rest
  | [] => h
  end.

Definition avalanche (h : Z) : Z :=
  let h := Z.lxor h (Z.shiftr h 15) in
  let h := to_uint32 (h * PRIME32_2) in
  let h := Z.lxor h (Z.shiftr h 13) in
  let h := to_uint32 (h * PRIME32_3) in
  Z.lxor h (Z.shiftr h 16).

Definition XXH32 (input : list byte) (seed : Z) : Z :=
  let len := Z.of_nat (length input) in
  let '(h, p) :=
    if 16 <=? len then
      let '(v1, v2, v3, v4, p) :=
        stripes (to_uint32 (seed + PRIME32_1 + PRIME32_2),
                 to_uint32 (seed + PRIME32_2),
                 to_uint32 seed,
                 to_uint32 (seed - PRIME32_1)) input in
      (to_uint32 (rotl32 v1 1 + rotl32 v2 7 + rotl32 v3 12 + rotl32 v4 18), p)
    else (to_uint32 (seed + PRIME32_5), input) in
  let h := to_uint32 (h + len) in
  let '(h, p) := finalize4 h p in
  avalanche (finalize1 h p).

End XXHash.

(** ** Concrete inputs

    The keys, corpus and filters on which the code is evaluated below. *)
Module Sample.

Import String.StringSyntax.
Delimit Scope string_scope with string.

Definition bytes (s : String.string) : list byte := String.list_byte_of_string s.

(** Both allocations succeed. *)
Definition ok : allocator := {| malloc_ok := true; calloc_ok := true |}.

(** The filter [create_bloom_filter] returns for a capacity when both
    allocations succeed. *)
Definition fresh (capacity : Z) : BloomFilter :=
  {| bit_array := replicate (Z.to_nat (capacity / 8)) 0;
     size := capacity;
     count := 0 |}.

Definition key_a : list byte := bytes "a"%string.
Definition bytes_abc : list byte := bytes "abc"%string.
Definition spammish : list byte :=
  bytes "Nobody inspects the spammish repetition"%string.
Definition key_1 : list byte := bytes "5BAA61E4C9"%string.
Definition key_2 : list byte := bytes "E38AD21494"%string.
Definition key_3 : list byte := bytes "B1B3773A05"%string.

(** Four lines; the third is shorter than a key, the last has no newline. *)
Definition corpus : list byte :=
  bytes "5BAA61E4C9B93F3F0682250B6CF8331B7EE68FD8:10437277"%string ++ [x0a]
  ++ bytes "E38AD214943DAAD1D64C102FAEC29DE4AFE9DA3D:2"%string ++ [x0a]
  ++ bytes "abc"%string ++ [x0a]
  ++ bytes "B1B3773A05C0ED0176787A4F1574FF0075F7521E:3912816"%string.

(** A corpus whose first line is shorter than a key. *)
Definition short_line : list byte := bytes "abc"%string ++ [x0a].
Definition short_rest : list byte := bytes "5BAA61E4C9B93F3F:7"%string ++ [x0a].
Definition short_first : list byte := short_line ++ short_rest.

(** Six lines, for shards that are full after two inserts each. *)
Definition longer : list byte := corpus ++ [x0a] ++ short_first.

Definition digit (d : nat) : byte :=
  nth d [x30; x31; x32; x33; x34; x35; x36; x37; x38; x39] x30.

(** One hundred distinct keys of ten characters. *)
Definition hundred_keys : list (list byte) :=
  (fun n => bytes "5BAA61E4"%string ++ [digit (n / 10); digit (n mod 10)])
    <$> seq 0 100.

(** A line of 200 characters and its newline. *)
Definition long_line : list byte := replicate 200 x41 ++ [x0a].

(** A file whose lines agree with those of [corpus] on their first 10
    characters. *)
Definition corpus_other_tails : list byte :=
  bytes "5BAA61E4C9:1"%string ++ [x0a]
  ++ bytes "E38AD21494 and more"%string ++ [x0a]
  ++ bytes "abc"%string ++ [x0a]
  ++ bytes "B1B3773A05"%string.

(** Three lines of at least 8 characters, 57 bytes in all. *)
Definition regular_line : list byte := bytes "5BAA61E4C9B93F3F:7"%string ++ [x0a].
Definition regular_rest : list byte :=
  bytes "E38AD214943DAAD1:2"%string ++ [x0a]
  ++ bytes "B1B3773A05C0ED01:9"%string ++ [x0a].
Definition regular : list byte := regular_line ++ regular_rest.

(** What a run is observed to end in: the inserts made, in order, the
    filters, the cursor and what is left of the file. *)
Definition summary (o : outcome pop_state)
  : option (list (Z * list byte) * list BloomFilter * Z * list byte) :=
  match o with
  | Done st =>
      Some (reverse (inserted st), filters st, current_filter st, pwned_file st)
  | _ => None
  end.

End Sample.

Section Bloom.

(** [BLOOM_SIZE] is a macro of [bloom_filter.h] and [XXH32] a function of the
    xxHash library; neither is part of the sources.  [XXH32 input seed] is the
    hash of the bytes [input]; its result is read as a [uint32_t]. *)
Variable BLOOM_SIZE : Z.
Variable XXH32 : list byte -> Z -> Z.

Definition determine_optimal_bloom_filters (file_size : Z) : Z :=
  let filter_size_bits := to_size_t BLOOM_SIZE in
  to_int (to_size_t (to_size_t (file_size + filter_size_bits) - 1)
          / filter_size_bits).

(** [XXH32(data, strlen(data), 0) % BLOOM_SIZE]: the hash is a [uint32_t],
    and so is the value returned. *)
Definition xxhash1 (data : list byte) : Z :=
  to_uint32 (to_uint32 (XXH32 (take (strlen data) data) 0) mod BLOOM_SIZE).

Definition xxhash2 (data : list byte) : Z :=
  to_uint32 (to_uint32 (XXH32 (take (strlen data) data) 1) mod BLOOM_SIZE).

Definition xxhash3 (data : list byte) : Z :=
  to_uint32 (to_uint32 (XXH32 (take (strlen data) data) 2) mod BLOOM_SIZE).

Definition bloom_insert (filter : BloomFilter) (data : list byte)
  : option BloomFilter :=
  ba1 ← set_bit (bit_array filter) (xxhash1 data);
  ba2 ← set_bit ba1 (xxhash2 data);
  ba3 ← set_bit ba2 (xxhash3 data);
  Some {| bit_array := ba3; size := size filter; count := count filter + 1 |}.

(** [&&] evaluates its right operand only when the left one is non-zero. *)
Definition bloom_contains (filter : BloomFilter) (data : list byte)
  : option bool :=
  b1 ← get_bit (bit_array filter) (xxhash1 data);
  if b1 =? 0 then Some false
  else
    b2 ← get_bit (bit_array filter) (xxhash2 data);
    if b2 =? 0 then Some false
    else
      b3 ← get_bit (bit_array filter) (xxhash3 data);
      Some (negb (b3 =? 0)).

(** ** Population *)

(** The key extraction of an iteration: [strncpy(hash_prefix, line, 10)],
    [hash_prefix[10] = 0], and the string [bloom_insert] then reads through the
    pointer.  It yields the new content of [hash_prefix] and that string. *)
Definition extract_key (hash_prefix line : list cell)
  : option (list cell * list byte) :=
  hp ← strncpy hash_prefix line 10;
  let hp := <[10%nat := Some x00]> hp in
  data ← load_string hp;
  Some (hp, data).

(** One iteration of the [while] loop, after [fgets] has stored a line in
    [line'] and left [rest] in the file. *)
Definition populate_body (num_filters : Z) (st : pop_state)
    (line' : list cell) (rest : list byte) : option pop_state :=
  '(hp, data) ← extract_key (hash_prefix st) line';
  let i := Z.to_nat (current_filter st) in
  f ← filters st !! i;
  f' ← bloom_insert f data;
  let fs := <[i := f']> (filters st) in
  f'' ← fs !! i;
  next ← (if bloom_filter_is_full f''
          then if num_filters =? 0 then None
               else Some (to_size_t (current_filter st + 1) mod num_filters)
          else Some (current_filter st));
  Some {| filters := fs;
          pwned_file := rest;
          current_filter := next;
          line := line';
          hash_prefix := hp;
          inserted := (current_filter st, data) :: inserted st |}.

Fixpoint populate_loop (fuel : nat) (num_filters : Z) (st : pop_state)
  : outcome pop_state :=
  match fuel with
  | O => OutOfFuel
  | S fuel' =>
      match fgets (line st) 128 (pwned_file st) with
      | None => Done st
      | Some (line', rest) =>
          match populate_body num_filters st line' rest with
          | None => Undefined
          | Some st' => populate_loop fuel' num_filters st'
          end
      end
  end.

(** The loop variables on entry: the two local arrays are indeterminate. *)
Definition entry_state (filters : list BloomFilter) (pwned_file : list byte)
    (current_filter : Z) : pop_state :=
  {| filters := filters;
     pwned_file := pwned_file;
     current_filter := current_filter;
     line := replicate 128 None;
     hash_prefix := replicate 11 None;
     inserted := [] |}.

(** Every iteration reads at least one byte of the file, so one more
    iteration than the file has bytes is enough. *)
Definition populate_recursive_bloom_filters (filters : list BloomFilter)
    (pwned_file : list byte) (num_filters current_filter : Z)
  : outcome pop_state :=
  populate_loop (S (length pwned_file)) num_filters
    (entry_state filters pwned_file current_filter).

(** The filters a run leaves behind. *)
Definition filters_of (o : outcome pop_state) : outcome (list BloomFilter) :=
  match o with
  | Done st => Done (filters st)
  | Undefined => Undefined
  | OutOfFuel => OutOfFuel
  end.

(** [file] is the content [fopen] gives access to, [None] when it fails. *)
Definition split_into_bloom_filters (file : option (list byte))
    (filters : list BloomFilter) (num_filters : Z) : outcome (list BloomFilter) :=
  match file with
  | None => Done filters
  | Some pwned_file =>
      filters_of (populate_recursive_bloom_filters filters pwned_file num_filters 0)
  end.

(** ** Reference definitions *)

(** A sequence of insert operations on one filter. *)
Fixpoint bloom_insert_all (filter : BloomFilter) (keys : list (list byte))
  : option BloomFilter :=
  match keys with
  | [] => Some filter
  | k :: keys' => f ← bloom_insert filter k; bloom_insert_all f keys'
  end.

(** Modelled from the spec: the aggregate query [contains_any] is missing from
    the sources.  It tests the shards in order and is true as soon as one
    shard's [contains] is. *)
Fixpoint contains_any (shard_set : list BloomFilter) (key : list byte)
  : option bool :=
  match shard_set with
  | [] => Some false
  | f :: shard_set' =>
      b ← bloom_contains f key;
      if b : bool then Some true else contains_any shard_set' key
  end.

(** The lines of the corpus as [fgets] delivers them, in file order: up to the
    newline, 127 characters at most. *)
Fixpoint split_lines (fuel : nat) (stream : list byte) : list (list byte) :=
  match fuel with
  | O => []
  | S fuel' =>
      match stream with
      | [] => []
      | _ :: _ =>
          let '(l, rest) := read_line 127 stream in l :: split_lines fuel' rest
      end
  end.

Definition corpus_lines (stream : list byte) : list (list byte) :=
  split_lines (S (length stream)) stream.

(** The key of a line: its first 10 characters, as a C string. *)
Definition key_of_line (l : list byte) : list byte :=
  take (strlen (take 10 l)) (take 10 l).

(** What [strncpy] copies out of a line [l] into a field of [n] bytes: the
    characters before the first NUL, then NULs. *)
Fixpoint copied (l : list byte) (n : nat) {struct n} : list byte :=
  match n with
  | O => []
  | S n' =>
      match l with
      | [] => replicate (S n') x00
      | c :: l' => if is_nul c then replicate (S n') x00 else c :: copied l' n'
      end
  end.

(** The rotation of section 4.4 of the specification, steps 1 to 4: insert the
    key into the shard at the cursor, then advance the cursor, wrapping around,
    exactly when that shard reports full. *)
Fixpoint rotate (shard_set : list BloomFilter) (current_shard : Z)
    (keys : list (list byte)) : option (list BloomFilter * Z) :=
  match keys with
  | [] => Some (shard_set, current_shard)
  | k :: keys' =>
      f ← shard_set !! Z.to_nat current_shard;
      f' ← bloom_insert f k;
      rotate (<[Z.to_nat current_shard := f']> shard_set)
        (if bloom_filter_is_full f'
         then (current_shard + 1) mod Z.of_nat (length shard_set)
         else current_shard)
        keys'
  end.

(** The planner of section 4.2 of the specification: the ceiling of
    [file_bytes / filter_bit_width]. *)
Definition ceil_div (file_bytes filter_bit_width : Z) : Z :=
  if file_bytes mod filter_bit_width =? 0
  then file_bytes / filter_bit_width
  else file_bytes / filter_bit_width + 1.

(** The states the loop passes through. *)
Inductive reaches (num_filters : Z) : pop_state -> pop_state -> Prop :=
  | reaches_here st : reaches num_filters st st
  | reaches_step st line' rest st' st'' :
      fgets (line st) 128 (pwned_file st) = Some (line', rest) ->
      populate_body num_filters st line' rest = Some st' ->
      reaches num_filters st' st'' ->
      reaches num_filters st st''.

(** Bit [i] of the array is set. *)
Definition bit_set (bit_array : list Z) (i : Z) : Prop :=
  exists b, bit_array !! Z.to_nat (i / 8) = Some b /\ Z.testbit b (i mod 8) = true.

(** A byte that is a [uint8_t] value with the bit of position [j] set. *)
Definition firm (ba : list Z) (j : Z) : Prop :=
  exists b, ba !! Z.to_nat (j / 8) = Some b /\ 0 <= b < 2 ^ 8 /\
            Z.testbit b (j mod 8) = true.

(** The array has a byte for every position the hash functions can return. *)
Definition covers_hashes (filter : BloomFilter) : Prop :=
  BLOOM_SIZE <= 8 * Z.of_nat (length (bit_array filter)).

(** The two invariants of the data model. *)
Definition filter_inv (filter : BloomFilter) : Prop :=
  Z.of_nat (length (bit_array filter)) = size filter / 8 /\
  forall i, 0 <= i -> bit_set (bit_array filter) i -> i < size filter.

(** The three positions of a key. *)
Definition positions (data : list byte) : list Z :=
  [xxhash1 data; xxhash2 data; xxhash3 data].

(** A sequence of [set_bit] calls on one array. *)
Fixpoint set_bits (ba : list Z) (indices : list Z) : option (list Z) :=
  match indices with
  | [] => Some ba
  | i :: indices' => ba' ← set_bit ba i; set_bits ba' indices'
  end.

(** The inserts a shard set has taken, all filters together. *)
Definition total_count (shard_set : list BloomFilter) : Z :=
  foldr (fun f acc => count f + acc) 0 shard_set.

(** The lines of a text, each with its newline; the last one has none when
    the text does not end in a newline. *)
Fixpoint text_lines (s : list byte) : list (list byte) :=
  match s with
  | [] => []
  | c :: s' =>
      if is_newline c then [c] :: text_lines s'
      else match text_lines s' with
           | [] => [[c]]
           | l :: ls => (c :: l) :: ls
           end
  end.

(** The bytes of an array are [uint8_t] values. *)
Definition uint8_array (ba : list Z) : Prop :=
  Forall (fun b => 0 <= b < 2 ^ 8) ba.

(** What a sequence of inserts into one filter of the set keeps. *)
Definition grown (f f' : BloomFilter) : Prop :=
  size f' = size f /\ count f <= count f' /\
  forall k, bloom_contains f k = Some true -> bloom_contains f' k = Some true.

(** The inserts filter [i] has taken when [t] keys went, in order, into
    filters that each take [T] of them. *)
Definition fill (T t i : Z) : Z := Z.max 0 (Z.min T (t - i * T)).

(** What holds of the loop variables between two iterations: the cursor and
    every index used so far are in range. *)
Record index_inv (num_filters : Z) (st : pop_state) : Prop := mkIndexInv {
  inv_cursor : 0 <= current_filter st < num_filters;
  inv_count : Z.of_nat (length (filters st)) = num_filters;
  inv_indices : forall i k, (i, k) ∈ inserted st -> 0 <= i < num_filters
}.

(** In addition, every filter can take every hash position, and every key
    handed to [bloom_insert] so far is in the filter it went to. *)
Record pop_inv (num_filters : Z) (st : pop_state) : Prop := mkPopInv {
  inv_index : index_inv num_filters st;
  inv_prefix : length (hash_prefix st) = 11%nat;
  inv_covers : Forall covers_hashes (filters st);
  inv_present : forall i k, (i, k) ∈ inserted st ->
    exists f, filters st !! Z.to_nat i = Some f /\ bloom_contains f k = Some true
}.

(** * Properties *)

(** ** Bits *)

Lemma index_split (i j : Z) :
  0 <= i -> 0 <= j ->
  Z.to_nat (i / 8) = Z.to_nat (j / 8) -> i mod 8 = j mod 8 -> i = j.
Proof.
  intros Hi Hj Hq Hr.
  pose proof (Z.div_mod i 8 ltac:(lia)) as Ei.
  pose proof (Z.div_mod j 8 ltac:(lia)) as Ej.
  assert (0 <= i / 8) by (apply Z.div_pos; lia).
  assert (0 <= j / 8) by (apply Z.div_pos; lia).
  assert (i / 8 = j / 8) by lia.
  lia.
Qed.

Lemma mask_testbit (m j : Z) :
  0 <= m -> Z.testbit (Z.shiftl 1 m) j = (m =? j).
Proof.
  intros Hm. rewrite Z.shiftl_1_l. by apply Z.pow2_bits_eqb.
Qed.

Lemma land_mask_zero (b m : Z) :
  0 <= m -> (Z.land b (Z.shiftl 1 m) =? 0) = negb (Z.testbit b m).
Proof.
  intros Hm. destruct (Z.testbit b m) eqn:Hb; simpl.
  - apply Z.eqb_neq. intros H0.
    assert (Z.testbit (Z.land b (Z.shiftl 1 m)) m = true) as Ht.
    { rewrite Z.land_spec, Hb, mask_testbit, Z.eqb_refl by done. done. }
    rewrite H0, Z.bits_0 in Ht. done.
  - apply Z.eqb_eq, Z.bits_inj'. intros n Hn.
    rewrite Z.land_spec, Z.bits_0, mask_testbit by done.
    destruct (Z.eqb_spec m n) as [->|]; [by rewrite Hb | by rewrite andb_false_r].
Qed.

Lemma set_byte_testbit (b m j : Z) :
  0 <= m -> 0 <= j < 8 ->
  Z.testbit (to_uint8 (Z.lor b (Z.shiftl 1 m))) j = Z.testbit b j || (m =? j).
Proof.
  intros Hm Hj. unfold to_uint8.
  rewrite Z.mod_pow2_bits_low by lia.
  by rewrite Z.lor_spec, mask_testbit.
Qed.

Lemma mod8_range (i : Z) : 0 <= i mod 8 < 8.
Proof. apply Z.mod_pos_bound. lia. Qed.

Lemma byte_index_lt (i : Z) (n : nat) :
  0 <= i -> (Z.to_nat (i / 8) < n)%nat <-> i < 8 * Z.of_nat n.
Proof.
  intros Hi.
  pose proof (Z.div_mod i 8 ltac:(lia)) as Ei.
  pose proof (mod8_range i).
  assert (0 <= i / 8) by (apply Z.div_pos; lia).
  split; intros; lia.
Qed.

Lemma get_bit_spec (ba : list Z) (i v : Z) :
  get_bit ba i = Some v ->
  exists b, ba !! Z.to_nat (i / 8) = Some b /\
            (v =? 0) = negb (Z.testbit b (i mod 8)).
Proof.
  unfold get_bit. intros H.
  destruct (ba !! Z.to_nat (i / 8)) as [b|] eqn:Hb; simplify_eq/=.
  exists b. split; [done|]. apply land_mask_zero, mod8_range.
Qed.

Lemma get_bit_set (ba : list Z) (i : Z) :
  bit_set ba i -> exists v, get_bit ba i = Some v /\ (v =? 0) = false.
Proof.
  intros (b & Hb & Ht). unfold get_bit. rewrite Hb. simpl.
  eexists. split; [done|].
  rewrite land_mask_zero by apply mod8_range. by rewrite Ht.
Qed.

Lemma bit_set_lt (ba : list Z) (i : Z) :
  0 <= i -> bit_set ba i -> i < 8 * Z.of_nat (length ba).
Proof.
  intros Hi (b & Hb & _). apply lookup_lt_Some in Hb.
  by apply byte_index_lt.
Qed.

Lemma set_bit_defined (ba : list Z) (j : Z) :
  0 <= j < 8 * Z.of_nat (length ba) -> is_Some (set_bit ba j).
Proof.
  intros [Hj Hlt]. unfold set_bit.
  destruct (lookup_lt_is_Some_2 ba (Z.to_nat (j / 8))) as [b Hb];
    [by apply byte_index_lt|].
  rewrite Hb. by eexists.
Qed.

Lemma set_bit_length (ba ba' : list Z) (j : Z) :
  set_bit ba j = Some ba' -> length ba' = length ba.
Proof.
  unfold set_bit. intros H.
  destruct (ba !! Z.to_nat (j / 8)) as [b|]; simplify_eq/=.
  apply length_insert.
Qed.

Lemma set_bit_spec (ba ba' : list Z) (i j : Z) :
  0 <= i -> 0 <= j ->
  set_bit ba j = Some ba' ->
  bit_set ba' i <-> bit_set ba i \/ i = j.
Proof.
  intros Hi Hj. unfold set_bit. intros H.
  destruct (ba !! Z.to_nat (j / 8)) as [b|] eqn:Hb; simplify_eq/=.
  pose proof (lookup_lt_Some _ _ _ Hb) as Hlt.
  pose proof (mod8_range i) as Hmi. pose proof (mod8_range j) as Hmj.
  unfold bit_set.
  destruct (decide (Z.to_nat (i / 8) = Z.to_nat (j / 8))) as [Heq|Hne].
  - rewrite Heq, list_lookup_insert_eq by done. split.
    + intros (b' & Hb' & Ht). simplify_eq.
      rewrite set_byte_testbit in Ht by lia.
      apply orb_true_iff in Ht as [Ht|Ht].
      * left. by exists b.
      * right. apply Z.eqb_eq in Ht. by apply index_split.
    + intros H. eexists. split; [done|].
      rewrite set_byte_testbit by lia. apply orb_true_iff.
      destruct H as [(b' & Hb' & Ht)| ->].
      * left. by simplify_eq.
      * right. by apply Z.eqb_eq.
  - rewrite list_lookup_insert_ne by done. split.
    + intros H. by left.
    + intros [H| ->]; [done|]. done.
Qed.

(** ** One filter *)

Lemma to_uint32_range (z : Z) : 0 <= to_uint32 z < 2 ^ 32.
Proof. apply Z.mod_pos_bound. lia. Qed.

Lemma reduce_range (z : Z) :
  0 < BLOOM_SIZE -> 0 <= to_uint32 (to_uint32 z mod BLOOM_SIZE) < BLOOM_SIZE.
Proof.
  intros Hpos.
  pose proof (Z.mod_pos_bound (to_uint32 z) BLOOM_SIZE Hpos) as Hr.
  pose proof (to_uint32_range (to_uint32 z mod BLOOM_SIZE)).
  pose proof (Z.mod_le (to_uint32 z mod BLOOM_SIZE) (2 ^ 32)
                ltac:(lia) ltac:(lia)) as Hle.
  unfold to_uint32 at 1 3. unfold to_uint32 at 1 in H. lia.
Qed.

Lemma reduce_value (z : Z) :
  0 < BLOOM_SIZE ->
  to_uint32 (to_uint32 z mod BLOOM_SIZE) = to_uint32 z mod BLOOM_SIZE.
Proof.
  intros Hpos.
  pose proof (Z.mod_pos_bound (to_uint32 z) BLOOM_SIZE Hpos) as Hr.
  pose proof (to_uint32_range z) as Hz.
  pose proof (Z.mod_le (to_uint32 z) BLOOM_SIZE ltac:(lia) Hpos) as Hle.
  unfold to_uint32 at 1. apply Z.mod_small. lia.
Qed.

Lemma positions_1 (data : list byte) : xxhash1 data ∈ positions data.
Proof. unfold positions. rewrite !elem_of_cons. tauto. Qed.

Lemma positions_2 (data : list byte) : xxhash2 data ∈ positions data.
Proof. unfold positions. rewrite !elem_of_cons. tauto. Qed.

Lemma positions_3 (data : list byte) : xxhash3 data ∈ positions data.
Proof. unfold positions. rewrite !elem_of_cons. tauto. Qed.

Lemma positions_nonneg (data : list byte) (i : Z) :
  i ∈ positions data -> 0 <= i.
Proof.
  unfold positions, xxhash1, xxhash2, xxhash3.
  rewrite !elem_of_cons, elem_of_nil.
  intros [->|[->|[->|[]]]]; apply to_uint32_range.
Qed.

Lemma positions_range (data : list byte) (i : Z) :
  0 < BLOOM_SIZE -> i ∈ positions data -> 0 <= i < BLOOM_SIZE.
Proof.
  intros Hpos. unfold positions, xxhash1, xxhash2, xxhash3.
  rewrite !elem_of_cons, elem_of_nil.
  intros [->|[->|[->|[]]]]; by apply reduce_range.
Qed.

Lemma bloom_insert_effect (f f' : BloomFilter) (data : list byte) :
  bloom_insert f data = Some f' ->
  size f' = size f /\
  count f' = count f + 1 /\
  length (bit_array f') = length (bit_array f) /\
  forall i, 0 <= i ->
    bit_set (bit_array f') i <-> bit_set (bit_array f) i \/ i ∈ positions data.
Proof.
  unfold bloom_insert. intros H.
  destruct (set_bit (bit_array f) (xxhash1 data)) as [ba1|] eqn:H1; simplify_eq/=.
  destruct (set_bit ba1 (xxhash2 data)) as [ba2|] eqn:H2; simplify_eq/=.
  destruct (set_bit ba2 (xxhash3 data)) as [ba3|] eqn:H3; simplify_eq/=.
  assert (0 <= xxhash1 data) by (apply (positions_nonneg data), positions_1).
  assert (0 <= xxhash2 data) by (apply (positions_nonneg data), positions_2).
  assert (0 <= xxhash3 data) by (apply (positions_nonneg data), positions_3).
  repeat split; try done.
  - rewrite (set_bit_length _ _ _ H3), (set_bit_length _ _ _ H2).
    apply (set_bit_length _ _ _ H1).
  - rewrite (set_bit_spec _ _ i (xxhash3 data) ltac:(done) ltac:(done) H3).
    rewrite (set_bit_spec _ _ i (xxhash2 data) ltac:(done) ltac:(done) H2).
    rewrite (set_bit_spec _ _ i (xxhash1 data) ltac:(done) ltac:(done) H1).
    unfold positions. rewrite !elem_of_cons, elem_of_nil. tauto.
  - rewrite (set_bit_spec _ _ i (xxhash3 data) ltac:(done) ltac:(done) H3).
    rewrite (set_bit_spec _ _ i (xxhash2 data) ltac:(done) ltac:(done) H2).
    rewrite (set_bit_spec _ _ i (xxhash1 data) ltac:(done) ltac:(done) H1).
    unfold positions. rewrite !elem_of_cons, elem_of_nil. tauto.
Qed.

Lemma bloom_insert_defined (f : BloomFilter) (data : list byte) :
  0 < BLOOM_SIZE -> covers_hashes f -> is_Some (bloom_insert f data).
Proof.
  intros Hpos Hc. unfold covers_hashes in Hc. unfold bloom_insert.
  pose proof (positions_range data (xxhash1 data) Hpos (positions_1 data)).
  pose proof (positions_range data (xxhash2 data) Hpos (positions_2 data)).
  pose proof (positions_range data (xxhash3 data) Hpos (positions_3 data)).
  destruct (set_bit_defined (bit_array f) (xxhash1 data)) as [ba1 E1]; [lia|].
  rewrite E1. simpl. pose proof (set_bit_length _ _ _ E1) as L1.
  destruct (set_bit_defined ba1 (xxhash2 data)) as [ba2 E2]; [lia|].
  rewrite E2. simpl. pose proof (set_bit_length _ _ _ E2) as L2.
  destruct (set_bit_defined ba2 (xxhash3 data)) as [ba3 E3]; [lia|].
  rewrite E3. simpl. by eexists.
Qed.

Lemma bloom_insert_covers (f f' : BloomFilter) (data : list byte) :
  covers_hashes f -> bloom_insert f data = Some f' -> covers_hashes f'.
Proof.
  unfold covers_hashes. intros Hc H.
  destruct (bloom_insert_effect _ _ _ H) as (_ & _ & -> & _). done.
Qed.

Lemma bloom_contains_true (f : BloomFilter) (data : list byte) :
  bloom_contains f data = Some true <->
  forall i, i ∈ positions data -> bit_set (bit_array f) i.
Proof.
  unfold bloom_contains. split.
  - intros H.
    destruct (get_bit (bit_array f) (xxhash1 data)) as [v1|] eqn:H1; simplify_eq/=.
    destruct (get_bit_spec _ _ _ H1) as (b1 & Hb1 & E1). rewrite E1 in H.
    destruct (Z.testbit b1 (xxhash1 data mod 8)) eqn:T1; simplify_eq/=.
    destruct (get_bit (bit_array f) (xxhash2 data)) as [v2|] eqn:H2; simplify_eq/=.
    destruct (get_bit_spec _ _ _ H2) as (b2 & Hb2 & E2). rewrite E2 in H.
    destruct (Z.testbit b2 (xxhash2 data mod 8)) eqn:T2; simplify_eq/=.
    destruct (get_bit (bit_array f) (xxhash3 data)) as [v3|] eqn:H3; simplify_eq/=.
    destruct (get_bit_spec _ _ _ H3) as (b3 & Hb3 & E3). rewrite E3 in H.
    destruct (Z.testbit b3 (xxhash3 data mod 8)) eqn:T3; simplify_eq/=.
    intros i. unfold positions. rewrite !elem_of_cons, elem_of_nil.
    intros [->|[->|[->|[]]]]; eexists; eauto.
  - intros H.
    destruct (get_bit_set _ _ (H (xxhash1 data) (positions_1 data))) as (v1 & G1 & Z1).
    rewrite G1; simpl; rewrite Z1.
    destruct (get_bit_set _ _ (H (xxhash2 data) (positions_2 data))) as (v2 & G2 & Z2).
    rewrite G2; simpl; rewrite Z2.
    destruct (get_bit_set _ _ (H (xxhash3 data) (positions_3 data))) as (v3 & G3 & Z3).
    rewrite G3; simpl; rewrite Z3.
    done.
Qed.

Lemma bloom_contains_defined (f : BloomFilter) (data : list byte) :
  0 < BLOOM_SIZE -> covers_hashes f -> is_Some (bloom_contains f data).
Proof.
  intros Hpos Hc. unfold covers_hashes in Hc. unfold bloom_contains, get_bit.
  pose proof (positions_range data (xxhash1 data) Hpos (positions_1 data)).
  pose proof (positions_range data (xxhash2 data) Hpos (positions_2 data)).
  pose proof (positions_range data (xxhash3 data) Hpos (positions_3 data)).
  destruct (lookup_lt_is_Some_2 (bit_array f) (Z.to_nat (xxhash1 data / 8)))
    as [b1 ->]; [apply byte_index_lt; lia|]. simpl.
  destruct (_ =? 0); [by eexists|].
  destruct (lookup_lt_is_Some_2 (bit_array f) (Z.to_nat (xxhash2 data / 8)))
    as [b2 ->]; [apply byte_index_lt; lia|]. simpl.
  destruct (_ =? 0); [by eexists|].
  destruct (lookup_lt_is_Some_2 (bit_array f) (Z.to_nat (xxhash3 data / 8)))
    as [b3 ->]; [apply byte_index_lt; lia|]. simpl.
  by eexists.
Qed.

(** A key stays in the filter it was inserted into. *)
Lemma bloom_insert_keeps (f f' : BloomFilter) (data key : list byte) :
  bloom_insert f data = Some f' ->
  bloom_contains f key = Some true -> bloom_contains f' key = Some true.
Proof.
  intros Hi. rewrite !bloom_contains_true. intros H i Hin.
  destruct (bloom_insert_effect _ _ _ Hi) as (_ & _ & _ & Hb).
  apply Hb; [by eapply positions_nonneg|]. left. by apply H.
Qed.

Lemma bloom_insert_contains (f f' : BloomFilter) (data : list byte) :
  bloom_insert f data = Some f' -> bloom_contains f' data = Some true.
Proof.
  intros Hi. rewrite bloom_contains_true. intros i Hin.
  destruct (bloom_insert_effect _ _ _ Hi) as (_ & _ & _ & Hb).
  apply Hb; [by eapply positions_nonneg|]. by right.
Qed.

Lemma to_uint8_range (z : Z) : 0 <= to_uint8 z < 2 ^ 8.
Proof. apply Z.mod_pos_bound. lia. Qed.

Lemma set_bit_firm (ba ba' : list Z) (j : Z) :
  0 <= j -> set_bit ba j = Some ba' -> firm ba' j.
Proof.
  intros Hj. unfold set_bit. intros H.
  destruct (ba !! Z.to_nat (j / 8)) as [b|] eqn:Hb; simplify_eq/=.
  pose proof (mod8_range j).
  eexists. split; [apply list_lookup_insert_eq; by eapply lookup_lt_Some|].
  split; [apply to_uint8_range|].
  rewrite set_byte_testbit by lia. by rewrite Z.eqb_refl, orb_true_r.
Qed.

Lemma set_bit_firm_keeps (ba ba' : list Z) (i j : Z) :
  0 <= i -> 0 <= j -> firm ba i -> set_bit ba j = Some ba' -> firm ba' i.
Proof.
  intros Hi Hj (b & Hb & Hr & Ht). unfold set_bit. intros H.
  destruct (ba !! Z.to_nat (j / 8)) as [c|] eqn:Hc; simplify_eq/=.
  pose proof (mod8_range i). pose proof (mod8_range j).
  unfold firm.
  destruct (decide (Z.to_nat (i / 8) = Z.to_nat (j / 8))) as [Heq|Hne].
  - rewrite Heq, list_lookup_insert_eq by (by eapply lookup_lt_Some).
    rewrite Heq in Hb. simplify_eq.
    eexists. split; [done|]. split; [apply to_uint8_range|].
    rewrite set_byte_testbit by lia. by rewrite Ht.
  - rewrite list_lookup_insert_ne by done. by exists b.
Qed.

Lemma set_bit_idem (ba : list Z) (j : Z) : firm ba j -> set_bit ba j = Some ba.
Proof.
  intros (b & Hb & Hr & Ht). unfold set_bit. rewrite Hb. simpl.
  pose proof (mod8_range j).
  assert (Z.lor b (Z.shiftl 1 (j mod 8)) = b) as ->.
  { apply Z.bits_inj'. intros n Hn.
    rewrite Z.lor_spec, mask_testbit by lia.
    destruct (Z.eqb_spec (j mod 8) n) as [<-|]; [by rewrite Ht | by rewrite orb_false_r]. }
  unfold to_uint8. rewrite Z.mod_small by done.
  by rewrite list_insert_id.
Qed.

(** Inserting a key a second time changes nothing but the counter. *)
Lemma bloom_insert_again (f f' : BloomFilter) (data : list byte) :
  bloom_insert f data = Some f' ->
  bloom_insert f' data =
    Some {| bit_array := bit_array f'; size := size f'; count := count f' + 1 |}.
Proof.
  unfold bloom_insert at 1. intros H.
  destruct (set_bit (bit_array f) (xxhash1 data)) as [ba1|] eqn:H1; simplify_eq/=.
  destruct (set_bit ba1 (xxhash2 data)) as [ba2|] eqn:H2; simplify_eq/=.
  destruct (set_bit ba2 (xxhash3 data)) as [ba3|] eqn:H3; simplify_eq/=.
  assert (0 <= xxhash1 data) as P1 by (apply (positions_nonneg data), positions_1).
  assert (0 <= xxhash2 data) as P2 by (apply (positions_nonneg data), positions_2).
  assert (0 <= xxhash3 data) as P3 by (apply (positions_nonneg data), positions_3).
  assert (firm ba3 (xxhash1 data)) as F1.
  { eapply set_bit_firm_keeps, H3; try done.
    eapply set_bit_firm_keeps, H2; try done.
    by eapply set_bit_firm. }
  assert (firm ba3 (xxhash2 data)) as F2.
  { eapply set_bit_firm_keeps, H3; try done. by eapply set_bit_firm. }
  assert (firm ba3 (xxhash3 data)) as F3 by (by eapply set_bit_firm).
  unfold bloom_insert. simpl.
  rewrite (set_bit_idem _ _ F1). simpl.
  rewrite (set_bit_idem _ _ F2). simpl.
  rewrite (set_bit_idem _ _ F3). done.
Qed.

(** ** Sequences of inserts *)

Lemma bloom_insert_all_app (f : BloomFilter) (ks1 ks2 : list (list byte)) :
  bloom_insert_all f (ks1 ++ ks2) =
  bloom_insert_all f ks1 ≫= λ f1, bloom_insert_all f1 ks2.
Proof.
  revert f. induction ks1 as [|k ks1 IH]; intros f; simpl; [done|].
  destruct (bloom_insert f k) as [f1|]; simpl; [apply IH | done].
Qed.

Lemma bloom_insert_all_defined (f : BloomFilter) (ks : list (list byte)) :
  0 < BLOOM_SIZE -> covers_hashes f ->
  exists f', bloom_insert_all f ks = Some f' /\ covers_hashes f'.
Proof.
  intros Hpos. revert f. induction ks as [|k ks IH]; intros f Hc; simpl.
  - by exists f.
  - destruct (bloom_insert_defined f k Hpos Hc) as [f1 H1]. rewrite H1. simpl.
    apply IH. by eapply bloom_insert_covers.
Qed.

Lemma bloom_insert_all_effect (f f' : BloomFilter) (ks : list (list byte)) :
  bloom_insert_all f ks = Some f' ->
  size f' = size f /\
  count f' = count f + Z.of_nat (length ks) /\
  length (bit_array f') = length (bit_array f) /\
  forall i, 0 <= i ->
    bit_set (bit_array f') i <->
    bit_set (bit_array f) i \/ exists k, k ∈ ks /\ i ∈ positions k.
Proof.
  revert f. induction ks as [|k ks IH]; intros f H; simpl in H.
  - simplify_eq. repeat split; try done; [simpl; lia | by left |].
    intros [?|(k & Hk & _)]; [done|]. by apply elem_of_nil in Hk.
  - destruct (bloom_insert f k) as [f1|] eqn:H1; simplify_eq/=.
    destruct (bloom_insert_effect _ _ _ H1) as (S1 & C1 & L1 & B1).
    destruct (IH _ H) as (S2 & C2 & L2 & B2).
    split; [congruence|]. split; [lia|]. split; [congruence|].
    intros i Hi. rewrite (B2 i Hi), (B1 i Hi). split.
    + intros [[?|?]|(k' & Hk' & ?)]; [by left| |].
      * right. exists k. split; [apply list_elem_of_here | done].
      * right. exists k'. split; [by apply list_elem_of_further | done].
    + intros [?|(k' & Hk' & ?)]; [by left; left|].
      apply elem_of_cons in Hk' as [->|Hk']; [by left; right|].
      right. by exists k'.
Qed.

Lemma bloom_insert_all_keeps (f f' : BloomFilter) (ks : list (list byte))
    (key : list byte) :
  bloom_insert_all f ks = Some f' ->
  bloom_contains f key = Some true -> bloom_contains f' key = Some true.
Proof.
  revert f. induction ks as [|k ks IH]; intros f H Hc; simpl in H.
  - by simplify_eq.
  - destruct (bloom_insert f k) as [f1|] eqn:H1; simplify_eq/=.
    eapply IH; [done|]. by eapply bloom_insert_keeps.
Qed.

(** ** Creation *)

Lemma create_bloom_filter_Some (a : allocator) (capacity : Z) (f : BloomFilter) :
  create_bloom_filter a capacity = Some f ->
  f = {| bit_array := replicate (Z.to_nat (capacity / 8)) 0;
         size := capacity; count := 0 |}.
Proof.
  unfold create_bloom_filter. intros H.
  destruct (malloc_ok a), (calloc_ok a); by simplify_eq/=.
Qed.

Lemma bit_set_zeroes (n : nat) (i : Z) : ~ bit_set (replicate n 0) i.
Proof.
  intros (b & Hb & Ht). apply lookup_replicate in Hb as [-> _].
  by rewrite Z.bits_0 in Ht.
Qed.

Lemma create_covers (a : allocator) (capacity : Z) (f : BloomFilter) :
  BLOOM_SIZE <= 8 * (capacity / 8) -> 0 <= capacity ->
  create_bloom_filter a capacity = Some f -> covers_hashes f.
Proof.
  intros Hle Hc H. apply create_bloom_filter_Some in H as ->.
  unfold covers_hashes. simpl. rewrite length_replicate.
  assert (0 <= capacity / 8) by (apply Z.div_pos; lia). lia.
Qed.

Lemma create_inv (a : allocator) (capacity : Z) (f : BloomFilter) :
  0 <= capacity -> create_bloom_filter a capacity = Some f -> filter_inv f.
Proof.
  intros Hc H. apply create_bloom_filter_Some in H as ->.
  split; simpl.
  - rewrite length_replicate.
    assert (0 <= capacity / 8) by (apply Z.div_pos; lia). lia.
  - intros i _ Hb. by apply bit_set_zeroes in Hb.
Qed.

Lemma filter_inv_of_length (f : BloomFilter) :
  Z.of_nat (length (bit_array f)) = size f / 8 -> filter_inv f.
Proof.
  intros Hl. split; [done|]. intros i Hi Hb.
  apply bit_set_lt in Hb; [|done].
  pose proof (Z.mul_div_le (size f) 8 ltac:(lia)). lia.
Qed.

(** ** The planner *)

Lemma ceil_div_bounds (a b : Z) :
  0 < b -> b * (ceil_div a b - 1) < a <= b * ceil_div a b.
Proof.
  intros Hb. unfold ceil_div.
  pose proof (Z.div_mod a b ltac:(lia)) as E.
  pose proof (Z.mod_pos_bound a b Hb) as R.
  destruct (Z.eqb_spec (a mod b) 0); nia.
Qed.

Lemma ceil_div_unique (a b q : Z) :
  0 < b -> b * (q - 1) < a <= b * q -> q = ceil_div a b.
Proof.
  intros Hb Hq. pose proof (ceil_div_bounds a b Hb). nia.
Qed.

Lemma round_up_div (a b : Z) : 0 < b -> (a + b - 1) / b = ceil_div a b.
Proof.
  intros Hb. apply ceil_div_unique; [done|].
  pose proof (Z.div_mod (a + b - 1) b ltac:(lia)) as E.
  pose proof (Z.mod_pos_bound (a + b - 1) b Hb) as R.
  nia.
Qed.

Lemma to_int_small (z : Z) : 0 <= z <= INT_MAX -> to_int z = z.
Proof.
  unfold to_int, INT_MAX. intros Hz.
  rewrite Z.mod_small by lia.
  destruct (Z.ltb_spec z (2 ^ 31)); lia.
Qed.

Lemma determine_optimal_bloom_filters_exact (file_size : Z) :
  0 < BLOOM_SIZE <= SIZE_MAX -> 0 <= file_size ->
  file_size + BLOOM_SIZE - 1 <= SIZE_MAX ->
  ceil_div file_size BLOOM_SIZE <= INT_MAX ->
  determine_optimal_bloom_filters file_size = ceil_div file_size BLOOM_SIZE.
Proof.
  unfold determine_optimal_bloom_filters, to_size_t, SIZE_MAX.
  intros [Hpos Hmax] Hf Hsum Hq.
  rewrite (Z.mod_small BLOOM_SIZE) by lia.
  rewrite Zminus_mod_idemp_l, Z.mod_small by lia.
  rewrite round_up_div by done.
  apply to_int_small. split; [|done].
  pose proof (ceil_div_bounds file_size BLOOM_SIZE Hpos). nia.
Qed.

(** ** Lines and keys *)

Lemma read_line_split (n : nat) (stream l rest : list byte) :
  read_line n stream = (l, rest) ->
  stream = l ++ rest /\ (length l <= n)%nat.
Proof.
  revert stream l rest. induction n as [|n IH]; intros stream l rest H.
  - destruct stream; simplify_eq/=; split; (done || lia).
  - destruct stream as [|c stream]; simplify_eq/=; [split; (done || lia)|].
    destruct (is_newline c); simplify_eq/=; [split; (done || lia)|].
    destruct (read_line n stream) as [l' rest'] eqn:E. simplify_eq/=.
    destruct (IH _ _ _ E) as [-> Hl]. split; [done | lia].
Qed.

Lemma read_line_progress (n : nat) (c : byte) (stream l rest : list byte) :
  read_line (S n) (c :: stream) = (l, rest) ->
  l <> [] /\ (length rest < length (c :: stream))%nat.
Proof.
  intros H. simpl in H. destruct (is_newline c).
  - simplify_eq/=. split; [done | lia].
  - destruct (read_line n stream) as [l' rest'] eqn:E'. simplify_eq/=.
    destruct (read_line_split _ _ _ _ E') as [E _].
    split; [done|]. rewrite E, length_app. lia.
Qed.

Lemma fgets_Some (buf : list cell) (stream : list byte) (line' : list cell)
    (rest : list byte) :
  fgets buf 128 stream = Some (line', rest) ->
  exists l, read_line 127 stream = (l, rest) /\
            l <> [] /\ (length l <= 127)%nat /\
            (length rest < length stream)%nat /\
            line' = store_bytes buf (l ++ [x00]).
Proof.
  unfold fgets. destruct stream as [|c stream]; [done|].
  change (128 - 1)%nat with 127%nat.
  destruct (read_line 127 (c :: stream)) as [l r] eqn:E. intros H. simplify_eq.
  destruct (read_line_progress _ _ _ _ _ E) as [Hne Hlt].
  destruct (read_line_split _ _ _ _ E) as [_ Hl].
  by exists l.
Qed.

Lemma fgets_None (buf : list cell) (stream : list byte) :
  fgets buf 128 stream = None <-> stream = [].
Proof.
  unfold fgets. destruct stream as [|c stream]; [done|].
  destruct (read_line _ _). done.
Qed.

Lemma strlen_nuls (n : nat) : strlen (replicate n x00) = 0%nat.
Proof. by destruct n. Qed.

Lemma copied_length (l : list byte) (n : nat) : length (copied l n) = n.
Proof.
  revert l. induction n as [|n IH]; intros l; [done|].
  destruct l as [|c l]; simpl.
  - by rewrite length_replicate.
  - destruct (is_nul c); simpl; [by rewrite length_replicate | by rewrite IH].
Qed.

Lemma copied_key (l : list byte) (n : nat) :
  take (strlen (copied l n)) (copied l n) = take (strlen (take n l)) (take n l).
Proof.
  revert l. induction n as [|n IH]; intros l; [by destruct l|].
  destruct l as [|c l]; [done|].
  cbn [copied take strlen]. destruct (is_nul c) eqn:Hc.
  - by rewrite strlen_nuls.
  - cbn [strlen]. rewrite Hc. cbn [take]. by rewrite IH.
Qed.

Lemma strncpy_bytes_line (l : list byte) (tail : list cell) (n : nat) :
  strncpy_bytes ((Some <$> l ++ [x00]) ++ tail) n = Some (copied l n).
Proof.
  revert l. induction n as [|n IH]; intros l; [done|].
  destruct l as [|c l]; [done|].
  cbn [fmap list_fmap app strncpy_bytes copied].
  destruct (is_nul c); [done|].
  change (list_fmap byte (option byte) Some (l ++ [x00]))
    with (Some <$> l ++ [x00]).
  by rewrite IH.
Qed.

Lemma load_string_bytes (bs : list byte) (tail : list cell) :
  load_string ((Some <$> bs) ++ Some x00 :: tail) = Some (take (strlen bs) bs).
Proof.
  induction bs as [|c bs IH]; [done|].
  cbn [fmap list_fmap app load_string strlen].
  destruct (is_nul c); [done|].
  change (list_fmap byte (option byte) Some bs) with (Some <$> bs).
  by rewrite IH.
Qed.

Lemma extract_key_line (hp buf : list cell) (l : list byte) :
  length hp = 11%nat ->
  extract_key hp (store_bytes buf (l ++ [x00])) =
    Some ((Some <$> copied l 10) ++ [Some x00], key_of_line l).
Proof.
  intros Hhp. unfold extract_key, strncpy.
  change (store_bytes buf (l ++ [x00]))
    with ((Some <$> l ++ [x00]) ++ drop (length (l ++ [x00])) buf).
  rewrite strncpy_bytes_line. cbn [mbind option_bind].
  assert (<[10%nat := Some x00]> (store_bytes hp (copied l 10))
          = (Some <$> copied l 10) ++ [Some x00]) as ->.
  { unfold store_bytes. rewrite copied_length.
    rewrite insert_app_r_alt by (rewrite length_fmap, copied_length; lia).
    rewrite length_fmap, copied_length.
    do 11 (destruct hp as [|? hp]; simplify_eq/=). by destruct hp. }
  rewrite load_string_bytes. cbn [mbind option_bind].
  unfold key_of_line. by rewrite copied_key.
Qed.

(** ** The population loop *)

Lemma populate_body_unfold (n : Z) (st : pop_state) (line' : list cell)
    (rest : list byte) (hp : list cell) (data : list byte) :
  extract_key (hash_prefix st) line' = Some (hp, data) ->
  populate_body n st line' rest =
    f ← filters st !! Z.to_nat (current_filter st);
    f' ← bloom_insert f data;
    next ← (if bloom_filter_is_full f'
            then if n =? 0 then None
                 else Some (to_size_t (current_filter st + 1) mod n)
            else Some (current_filter st));
    Some {| filters := <[Z.to_nat (current_filter st) := f']> (filters st);
            pwned_file := rest;
            current_filter := next;
            line := line';
            hash_prefix := hp;
            inserted := (current_filter st, data) :: inserted st |}.
Proof.
  unfold populate_body. intros ->. cbn [mbind option_bind].
  destruct (filters st !! Z.to_nat (current_filter st)) as [f|] eqn:Hf; [|done].
  cbn [mbind option_bind].
  destruct (bloom_insert f data) as [f'|]; [|done]. cbn [mbind option_bind].
  rewrite list_lookup_insert_eq by (by eapply lookup_lt_Some). done.
Qed.

Lemma populate_body_extracts (n : Z) (st st' : pop_state) (line' : list cell)
    (rest : list byte) :
  populate_body n st line' rest = Some st' ->
  exists hp data, extract_key (hash_prefix st) line' = Some (hp, data).
Proof.
  unfold populate_body. intros H.
  destruct (extract_key (hash_prefix st) line') as [[hp data]|]; [|done].
  by eexists _, _.
Qed.

Lemma populate_body_index (n : Z) (st st' : pop_state) (line' : list cell)
    (rest : list byte) :
  n <= SIZE_MAX -> index_inv n st ->
  populate_body n st line' rest = Some st' -> index_inv n st'.
Proof.
  intros Hmax Hinv H.
  destruct (populate_body_extracts _ _ _ _ _ H) as (hp & data & He).
  rewrite (populate_body_unfold _ _ _ _ _ _ He) in H.
  destruct (filters st !! Z.to_nat (current_filter st)) as [f|]; [|done].
  cbn [mbind option_bind] in H.
  destruct (bloom_insert f data) as [f'|]; [|done].
  cbn [mbind option_bind] in H.
  destruct Hinv as [Hc Hn Hi].
  assert (forall i k, (i, k) ∈ (current_filter st, data) :: inserted st ->
                      0 <= i < n) as Hi'.
  { intros i k [E|E]%elem_of_cons; [by injection E as -> -> | by eapply Hi]. }
  destruct (bloom_filter_is_full f').
  - destruct (Z.eqb_spec n 0) as [|Hn0]; [done|].
    cbn [mbind option_bind] in H. injection H as <-.
    split; simpl; [apply Z.mod_pos_bound; lia | by rewrite length_insert | done].
  - cbn [mbind option_bind] in H. injection H as <-.
    split; simpl; [done | by rewrite length_insert | done].
Qed.

Lemma reaches_index (n : Z) (st st' : pop_state) :
  n <= SIZE_MAX -> reaches n st st' -> index_inv n st -> index_inv n st'.
Proof.
  intros Hmax Hr. induction Hr as [|st l r st1 st2 _ Hb _ IH]; [done|].
  intros Hi. apply IH. by eapply populate_body_index.
Qed.

Lemma index_inv_access (n : Z) (st : pop_state) :
  index_inv n st -> is_Some (filters st !! Z.to_nat (current_filter st)).
Proof.
  intros [Hc Hn _]. apply lookup_lt_is_Some_2. lia.
Qed.

Lemma populate_body_step (n : Z) (st : pop_state) (line' : list cell)
    (rest : list byte) :
  0 < BLOOM_SIZE -> n <= SIZE_MAX -> pop_inv n st ->
  fgets (line st) 128 (pwned_file st) = Some (line', rest) ->
  exists l f f' st',
    read_line 127 (pwned_file st) = (l, rest) /\
    (length rest < length (pwned_file st))%nat /\
    filters st !! Z.to_nat (current_filter st) = Some f /\
    bloom_insert f (key_of_line l) = Some f' /\
    populate_body n st line' rest = Some st' /\
    filters st' = <[Z.to_nat (current_filter st) := f']> (filters st) /\
    pwned_file st' = rest /\
    current_filter st' =
      (if bloom_filter_is_full f' then (current_filter st + 1) mod n
       else current_filter st) /\
    inserted st' = (current_filter st, key_of_line l) :: inserted st /\
    pop_inv n st'.
Proof.
  intros Hpos Hmax [Hidx Hhp Hcov Hpres] Hg.
  destruct (fgets_Some _ _ _ _ Hg) as (l & Hl & _ & _ & Hlt & ->).
  pose proof (extract_key_line _ (line st) l Hhp) as He.
  destruct (index_inv_access _ _ Hidx) as [f Hf].
  pose proof Hidx as [Hc Hn Hi].
  assert (covers_hashes f) as Hcf by (by eapply Forall_lookup_1).
  destruct (bloom_insert_defined f (key_of_line l) Hpos Hcf) as [f' Hf'].
  pose proof (populate_body_unfold n st _ rest _ _ He) as Hb.
  rewrite Hf in Hb. cbn [mbind option_bind] in Hb.
  rewrite Hf' in Hb. cbn [mbind option_bind] in Hb.
  assert (to_size_t (current_filter st + 1) = current_filter st + 1) as Ew.
  { unfold to_size_t, SIZE_MAX in *. apply Z.mod_small. lia. }
  assert ((if bloom_filter_is_full f'
           then if n =? 0 then None
                else Some (to_size_t (current_filter st + 1) mod n)
           else Some (current_filter st))
          = Some (if bloom_filter_is_full f'
                  then (current_filter st + 1) mod n
                  else current_filter st)) as En.
  { destruct (bloom_filter_is_full f'); [|done].
    destruct (Z.eqb_spec n 0); [lia|]. by rewrite Ew. }
  rewrite En in Hb. cbn [mbind option_bind] in Hb.
  eexists l, f, f', _. do 4 (split; [done|]). split; [exact Hb|].
  do 4 (split; [done|]).
  split; cbn [filters hash_prefix inserted current_filter].
  - eapply populate_body_index; [done | exact Hidx | exact Hb].
  - rewrite length_app, length_fmap, copied_length. done.
  - apply Forall_insert; [done|]. by eapply bloom_insert_covers.
  - intros i k [E|E]%elem_of_cons.
    + simplify_eq. exists f'. split.
      * apply list_lookup_insert_eq. by eapply lookup_lt_Some.
      * by eapply bloom_insert_contains.
    + destruct (Hpres i k E) as (g & Hg' & Hk).
      destruct (decide (Z.to_nat (current_filter st) = Z.to_nat i)) as [Eq|Ne].
      * rewrite <- Eq in Hg'. simplify_eq. exists f'. split.
        -- rewrite <- Eq. apply list_lookup_insert_eq. by eapply lookup_lt_Some.
        -- by eapply bloom_insert_keeps.
      * exists g. split; [by rewrite list_lookup_insert_ne | done].
Qed.

Lemma split_lines_concat (fuel : nat) (stream : list byte) :
  (length stream < fuel)%nat -> concat (split_lines fuel stream) = stream.
Proof.
  revert stream. induction fuel as [|fuel IH]; intros stream Hlt; [lia|].
  destruct stream as [|c stream]; [done|].
  cbn [split_lines].
  destruct (read_line 127 (c :: stream)) as [l rest] eqn:E.
  destruct (read_line_progress _ _ _ _ _ E) as [_ Hr].
  destruct (read_line_split _ _ _ _ E) as [Es _].
  cbn [concat]. rewrite IH by lia. done.
Qed.

Lemma copied_shape (l : list byte) (n : nat) :
  copied l n =
  take (strlen (take n l)) (take n l)
  ++ replicate (n - strlen (take n l)) x00.
Proof.
  revert l. induction n as [|n IH]; intros l; [by destruct l|].
  destruct l as [|c l]; [done|].
  cbn [copied take strlen]. destruct (is_nul c) eqn:Hc; [done|].
  cbn [take app]. rewrite (IH l) at 1. done.
Qed.

Lemma contains_any_true (fs : list BloomFilter) (k : list byte) (i : nat)
    (f : BloomFilter) :
  0 < BLOOM_SIZE -> Forall covers_hashes fs ->
  fs !! i = Some f -> bloom_contains f k = Some true ->
  contains_any fs k = Some true.
Proof.
  intros Hpos Hc. revert i. induction Hc as [|g fs Hg _ IH]; intros i Hi Hk.
  - done.
  - cbn [contains_any].
    destruct (bloom_contains_defined g k Hpos Hg) as [b Hb].
    rewrite Hb. cbn [mbind option_bind]. destruct b; [done|].
    destruct i as [|i]; simplify_eq/=. by eapply IH.
Qed.

Lemma populate_loop_run (n : Z) :
  0 < BLOOM_SIZE -> n <= SIZE_MAX ->
  forall (fuel : nat) (st : pop_state),
    (length (pwned_file st) < fuel)%nat -> pop_inv n st ->
    exists st',
      populate_loop fuel n st = Done st' /\
      reaches n st st' /\
      pop_inv n st' /\
      pwned_file st' = [] /\
      rotate (filters st) (current_filter st)
        (key_of_line <$> split_lines fuel (pwned_file st))
        = Some (filters st', current_filter st') /\
      (inserted st').*2 =
        reverse (key_of_line <$> split_lines fuel (pwned_file st))
        ++ (inserted st).*2.
Proof.
  intros Hpos Hmax. induction fuel as [|fuel IH]; intros st Hlt Hinv; [lia|].
  cbn [populate_loop split_lines].
  destruct (fgets (line st) 128 (pwned_file st)) as [[line' rest]|] eqn:Hg.
  - destruct (populate_body_step n st line' rest Hpos Hmax Hinv Hg)
      as (l & f & f' & st1 & Hl & Hlen & Hf & Hf' & Hb & Efs & Efile & Ecur
          & Eins & Hinv1).
    rewrite Hb.
    destruct (IH st1) as (st' & Hrun & Hreach & Hinv' & Hend & Hrot & Htrace);
      [rewrite Efile; lia | done |].
    exists st'. split; [done|]. split; [by eapply reaches_step|].
    split; [done|]. split; [done|].
    destruct (pwned_file st) as [|c stream] eqn:Es; [done|].
    rewrite Hl. cbn [fmap list_fmap rotate].
    rewrite Hf. cbn [mbind option_bind]. rewrite Hf'. cbn [mbind option_bind].
    destruct Hinv as [[_ Hn _] _ _ _]. rewrite Hn.
    rewrite Efs, Ecur, Efile in Hrot. split; [exact Hrot|].
    rewrite Htrace, Eins, Efile. cbn [fmap list_fmap snd].
    rewrite reverse_cons, <- app_assoc. done.
  - apply fgets_None in Hg. rewrite Hg.
    exists st. split; [done|]. split; [apply reaches_here|]. done.
Qed.

(** * The claims *)

Lemma multiple_of_8 (z : Z) : z mod 8 = 0 -> 8 * (z / 8) = z.
Proof. intros H. pose proof (Z.div_mod z 8 ltac:(lia)). lia. Qed.

(** C1.  No false negatives within one filter.  A filter created with
    capacity [BLOOM_SIZE] (a multiple of 8) accepts every insert; a key is
    reported present right after it is inserted, whatever was inserted before,
    and is still reported present after any further sequence of inserts. *)
Theorem no_false_negatives_single_filter (a : allocator) (F : BloomFilter)
    (earlier later : list (list byte)) (k : list byte) :
  0 < BLOOM_SIZE -> BLOOM_SIZE mod 8 = 0 ->
  create_bloom_filter a BLOOM_SIZE = Some F ->
  exists F1 F2 F3,
    bloom_insert_all F earlier = Some F1 /\
    bloom_insert F1 k = Some F2 /\
    bloom_contains F2 k = Some true /\
    bloom_insert_all F2 later = Some F3 /\
    bloom_contains F3 k = Some true.
Proof.
  intros Hpos H8 Hc.
  assert (covers_hashes F) as HF.
  { apply (create_covers a BLOOM_SIZE); [|lia|done].
    rewrite multiple_of_8; [lia|done]. }
  destruct (bloom_insert_all_defined F earlier Hpos HF) as (F1 & E1 & HF1).
  destruct (bloom_insert_defined F1 k Hpos HF1) as [F2 E2].
  pose proof (bloom_insert_covers _ _ _ HF1 E2) as HF2.
  destruct (bloom_insert_all_defined F2 later Hpos HF2) as (F3 & E3 & _).
  pose proof (bloom_insert_contains _ _ _ E2) as Hk.
  exists F1, F2, F3. repeat split; try done.
  by eapply bloom_insert_all_keeps.
Qed.

(** C3, as amended.  On a filter whose array has a byte for every position
    below [BLOOM_SIZE], an insert computes three positions, the hash of the
    key's bytes with seeds 0, 1 and 2, each reduced modulo the constant
    [BLOOM_SIZE] (not the [size] field of the filter); it sets exactly these
    three bits, leaves [size] alone and adds one to [count].  Inserting the
    same key again, when all three bits are set, changes nothing in the array
    and adds one to [count] again. *)
Theorem bloom_insert_semantics (filter : BloomFilter) (key : list byte) :
  0 < BLOOM_SIZE -> covers_hashes filter ->
  exists filter',
    bloom_insert filter key = Some filter' /\
    xxhash1 key = to_uint32 (XXH32 (take (strlen key) key) 0) mod BLOOM_SIZE /\
    xxhash2 key = to_uint32 (XXH32 (take (strlen key) key) 1) mod BLOOM_SIZE /\
    xxhash3 key = to_uint32 (XXH32 (take (strlen key) key) 2) mod BLOOM_SIZE /\
    (forall i, 0 <= i ->
       bit_set (bit_array filter') i <->
       bit_set (bit_array filter) i \/
       i = xxhash1 key \/ i = xxhash2 key \/ i = xxhash3 key) /\
    size filter' = size filter /\
    count filter' = count filter + 1 /\
    bloom_insert filter' key =
      Some {| bit_array := bit_array filter';
              size := size filter';
              count := count filter' + 1 |}.
Proof.
  intros Hpos Hc.
  destruct (bloom_insert_defined filter key Hpos Hc) as [f' Hf'].
  destruct (bloom_insert_effect _ _ _ Hf') as (Hs & Hn & _ & Hb).
  exists f'. split; [done|].
  do 3 (split; [by apply reduce_value|]).
  split.
  { intros i Hi. rewrite (Hb i Hi). unfold positions.
    rewrite !elem_of_cons, elem_of_nil. tauto. }
  do 2 (split; [done|]). by eapply bloom_insert_again.
Qed.

(** C4, as amended.  For a capacity whose array covers [BLOOM_SIZE] bits, as
    when the capacity is [BLOOM_SIZE] itself and a multiple of 8, the created
    filter satisfies the two invariants, every sequence of inserts succeeds
    and leaves them true, and the bits set are the hash positions of the keys
    inserted. *)
Theorem filter_invariant_preserved (a : allocator) (capacity : Z)
    (F : BloomFilter) (keys : list (list byte)) :
  0 < BLOOM_SIZE <= 8 * (capacity / 8) ->
  create_bloom_filter a capacity = Some F ->
  filter_inv F /\
  exists F',
    bloom_insert_all F keys = Some F' /\
    filter_inv F' /\
    size F' = capacity /\
    forall i, 0 <= i ->
      bit_set (bit_array F') i <-> exists k, k ∈ keys /\ i ∈ positions k.
Proof.
  intros [Hpos Hle] Hc.
  assert (0 <= capacity) as Hcap.
  { destruct (Z.le_gt_cases 0 capacity) as [|Hneg]; [done|].
    pose proof (Z.div_lt_upper_bound capacity 8 0 ltac:(lia) ltac:(lia)). lia. }
  pose proof (create_inv _ _ _ Hcap Hc) as HI.
  pose proof (create_covers _ _ _ Hle Hcap Hc) as HF.
  split; [done|].
  destruct (bloom_insert_all_defined F keys Hpos HF) as (F' & E & _).
  destruct (bloom_insert_all_effect _ _ _ E) as (Hs & _ & Hl & Hb).
  pose proof (create_bloom_filter_Some _ _ _ Hc) as EF.
  exists F'. split; [done|]. destruct HI as [HIl _].
  split; [apply filter_inv_of_length; rewrite Hl, Hs; done|].
  split; [rewrite Hs, EF; done|].
  intros i Hi. rewrite (Hb i Hi). split; [|by right].
  intros [H0|H1]; [|done]. rewrite EF in H0. by apply bit_set_zeroes in H0.
Qed.

(** C5.  [bloom_filter_is_full] is true exactly when [count >= size / 8]; on
    a filter of capacity 800, every insert of a sequence of 100 succeeds, the
    filter is not full after fewer than 100 of them and is full after the
    100th. *)
Theorem fullness_threshold (a : allocator) (F : BloomFilter)
    (keys : list (list byte)) :
  0 < BLOOM_SIZE <= 800 ->
  create_bloom_filter a 800 = Some F ->
  length keys = 100%nat ->
  (forall f, bloom_filter_is_full f = true <-> count f >= size f / 8) /\
  (forall j, (j <= 100)%nat ->
     exists Fj,
       bloom_insert_all F (take j keys) = Some Fj /\
       count Fj = Z.of_nat j /\
       bloom_filter_is_full Fj = bool_decide (j = 100%nat)).
Proof.
  intros [Hpos Hle] Hc Hlen. split.
  { intros f. unfold bloom_filter_is_full. rewrite Z.leb_le. lia. }
  intros j Hj.
  assert (covers_hashes F) as HF.
  { apply (create_covers a 800); [|lia|done]. change (800 / 8) with 100. lia. }
  destruct (bloom_insert_all_defined F (take j keys) Hpos HF) as (Fj & E & _).
  destruct (bloom_insert_all_effect _ _ _ E) as (Hs & Hn & _ & _).
  apply create_bloom_filter_Some in Hc. subst F. simpl in Hs, Hn.
  rewrite length_take, Hlen, Nat.min_l in Hn by done.
  exists Fj. split; [done|]. split; [lia|].
  unfold bloom_filter_is_full. rewrite Hs, Hn. change (800 / 8) with 100.
  case_bool_decide; [apply Z.leb_le | apply Z.leb_gt]; lia.
Qed.

Lemma ceil_div_multiple (n b : Z) : 0 < b -> ceil_div (n * b) b = n.
Proof. intros Hb. symmetry. apply ceil_div_unique; [done | nia]. Qed.

(** C7, as amended.  When neither the sum [file_bytes + BLOOM_SIZE - 1]
    overflows [size_t] nor the quotient overflows [int], the planner returns
    the ceiling of [file_bytes / BLOOM_SIZE]; in particular 0 for an empty
    file, 1 for [BLOOM_SIZE] bytes, 2 for one byte more and [n] for
    [n * BLOOM_SIZE] bytes, within the same bounds. *)
Theorem planner_ceiling (file_bytes : Z) :
  0 < BLOOM_SIZE <= SIZE_MAX -> 0 <= file_bytes ->
  file_bytes + BLOOM_SIZE - 1 <= SIZE_MAX ->
  ceil_div file_bytes BLOOM_SIZE <= INT_MAX ->
  determine_optimal_bloom_filters file_bytes = ceil_div file_bytes BLOOM_SIZE /\
  BLOOM_SIZE * (determine_optimal_bloom_filters file_bytes - 1) < file_bytes
    <= BLOOM_SIZE * determine_optimal_bloom_filters file_bytes /\
  determine_optimal_bloom_filters 0 = 0 /\
  (2 * BLOOM_SIZE - 1 <= SIZE_MAX ->
   determine_optimal_bloom_filters BLOOM_SIZE = 1) /\
  (2 * BLOOM_SIZE <= SIZE_MAX ->
   determine_optimal_bloom_filters (BLOOM_SIZE + 1) = 2) /\
  (forall n, 0 < n <= INT_MAX ->
     n * BLOOM_SIZE + BLOOM_SIZE - 1 <= SIZE_MAX ->
     determine_optimal_bloom_filters (n * BLOOM_SIZE) = n).
Proof.
  intros HB Hf Hsum Hq. pose proof HB as [Hpos Hmax].
  unfold INT_MAX in *.
  split; [by apply determine_optimal_bloom_filters_exact|].
  split.
  { rewrite determine_optimal_bloom_filters_exact by done.
    by apply ceil_div_bounds. }
  assert (forall n, 0 <= n <= 2 ^ 31 - 1 ->
            n * BLOOM_SIZE + BLOOM_SIZE - 1 <= SIZE_MAX ->
            determine_optimal_bloom_filters (n * BLOOM_SIZE) = n) as Hn.
  { intros n Hn Hs.
    rewrite determine_optimal_bloom_filters_exact;
      rewrite ?ceil_div_multiple; unfold INT_MAX; (done || nia). }
  split; [apply (Hn 0); lia|].
  split; [intros H2; rewrite <- (Z.mul_1_l BLOOM_SIZE) at 1; apply Hn; lia|].
  split; [|intros n Hr; apply Hn; lia].
  intros H2.
  rewrite determine_optimal_bloom_filters_exact; try (done || lia).
  - symmetry. apply ceil_div_unique; [done | lia].
  - rewrite <- (ceil_div_unique (BLOOM_SIZE + 1) BLOOM_SIZE 2); unfold INT_MAX; lia.
Qed.

(** C9, as amended.  For a capacity that is a multiple of 8, creation either
    returns nothing, exactly when one of the two allocations fails, or returns
    a filter whose array is [capacity / 8] zero bytes, whose [size] is the
    capacity and whose [count] is 0.  When the capacity is at least
    [BLOOM_SIZE], [bloom_contains] is false for every key on that filter. *)
Theorem create_bloom_filter_result (a : allocator) (capacity : Z) :
  0 < BLOOM_SIZE -> 0 <= capacity -> capacity mod 8 = 0 ->
  match create_bloom_filter a capacity with
  | None => malloc_ok a = false \/ calloc_ok a = false
  | Some F =>
      malloc_ok a = true /\ calloc_ok a = true /\
      bit_array F = replicate (Z.to_nat (capacity / 8)) 0 /\
      Z.of_nat (length (bit_array F)) = capacity / 8 /\
      size F = capacity /\
      count F = 0 /\
      (BLOOM_SIZE <= capacity -> forall k, bloom_contains F k = Some false)
  end.
Proof.
  intros Hpos Hcap H8.
  destruct (create_bloom_filter a capacity) as [F|] eqn:Hc.
  - pose proof (create_bloom_filter_Some _ _ _ Hc) as EF.
    pose proof (create_inv _ _ _ Hcap Hc) as [Hl _].
    unfold create_bloom_filter in Hc.
    destruct (malloc_ok a), (calloc_ok a); try done.
    assert (size F = capacity) as Es by (by rewrite EF).
    rewrite Es in Hl.
    do 2 (split; [done|]). split; [by rewrite EF|].
    do 2 (split; [done|]). split; [by rewrite EF|].
    intros Hle k.
    assert (covers_hashes F) as HF.
    { unfold covers_hashes. rewrite Hl, multiple_of_8 by done. done. }
    destruct (bloom_contains_defined F k Hpos HF) as [[|] Hb]; [|done].
    pose proof (proj1 (bloom_contains_true F k) Hb _ (positions_1 k)) as Hs.
    rewrite EF in Hs. by apply bit_set_zeroes in Hs.
  - unfold create_bloom_filter in Hc.
    destruct (malloc_ok a), (calloc_ok a); simplify_eq/=; auto.
Qed.

Lemma populate_body_file (n : Z) (st st' : pop_state) (line' : list cell)
    (rest : list byte) :
  populate_body n st line' rest = Some st' -> pwned_file st' = rest.
Proof.
  intros H.
  destruct (populate_body_extracts _ _ _ _ _ H) as (hp & data & He).
  rewrite (populate_body_unfold _ _ _ _ _ _ He) in H.
  destruct (filters st !! Z.to_nat (current_filter st)) as [f|]; [|done].
  cbn [mbind option_bind] in H.
  destruct (bloom_insert f data) as [f'|]; [|done].
  cbn [mbind option_bind] in H.
  destruct (if bloom_filter_is_full f'
            then if n =? 0 then None
                 else Some (to_size_t (current_filter st + 1) mod n)
            else Some (current_filter st)) as [next|]; [|done].
  cbn [mbind option_bind] in H. by injection H as <-.
Qed.

(** The iteration budget is never what ends a run. *)
Lemma populate_loop_fuel (n : Z) (fuel : nat) (st : pop_state) :
  (length (pwned_file st) < fuel)%nat -> populate_loop fuel n st <> OutOfFuel.
Proof.
  revert st. induction fuel as [|fuel IH]; intros st Hlt; [lia|].
  cbn [populate_loop].
  destruct (fgets (line st) 128 (pwned_file st)) as [[line' rest]|] eqn:Hg;
    [|done].
  destruct (populate_body n st line' rest) as [st'|] eqn:Hb; [|done].
  apply IH. rewrite (populate_body_file _ _ _ _ _ Hb).
  destruct (fgets_Some _ _ _ _ Hg) as (_ & _ & _ & _ & Hr & _). lia.
Qed.

Lemma populate_recursive_bloom_filters_fuel (fs : list BloomFilter)
    (file : list byte) (n cur : Z) :
  populate_recursive_bloom_filters fs file n cur <> OutOfFuel.
Proof. apply populate_loop_fuel. simpl. lia. Qed.

Lemma entry_inv (fs : list BloomFilter) (file : list byte) (n : Z) :
  1 <= n -> Z.of_nat (length fs) = n -> Forall covers_hashes fs ->
  pop_inv n (entry_state fs file 0).
Proof.
  intros Hn Hl Hc. split; [split|..]; simpl; try done; try lia.
  - intros i k Hin. by apply elem_of_nil in Hin.
  - intros i k Hin. by apply elem_of_nil in Hin.
Qed.

Lemma reaches_pop_inv (n : Z) (st st' : pop_state) :
  0 < BLOOM_SIZE -> n <= SIZE_MAX ->
  reaches n st st' -> pop_inv n st -> pop_inv n st'.
Proof.
  intros Hpos Hmax Hr. induction Hr as [|st l r st1 st2 Hg Hb _ IH]; [done|].
  intros Hi. apply IH.
  destruct (populate_body_step n st l r Hpos Hmax Hi Hg)
    as (? & ? & ? & st1' & _ & _ & _ & _ & Hb' & _ & _ & _ & _ & Hi1).
  congruence.
Qed.

Lemma populate_run (fs : list BloomFilter) (file : list byte) (n : Z) :
  0 < BLOOM_SIZE -> 1 <= n <= SIZE_MAX ->
  Z.of_nat (length fs) = n -> Forall covers_hashes fs ->
  exists st,
    populate_recursive_bloom_filters fs file n 0 = Done st /\
    reaches n (entry_state fs file 0) st /\
    pop_inv n st /\
    pwned_file st = [] /\
    rotate fs 0 (key_of_line <$> corpus_lines file)
      = Some (filters st, current_filter st) /\
    reverse (inserted st).*2 = key_of_line <$> corpus_lines file.
Proof.
  intros Hpos [Hn Hmax] Hl Hc.
  destruct (populate_loop_run n Hpos Hmax (S (length file))
              (entry_state fs file 0))
    as (st & Hrun & Hreach & Hinv & Hend & Hrot & Htrace);
    [simpl; lia | by apply entry_inv |].
  exists st. do 4 (split; [done|]). split; [exact Hrot|].
  simpl in Htrace. rewrite Htrace, app_nil_r, reverse_involutive. done.
Qed.

(** C2.  No false negatives across the shard set.  Population of a set of at
    least one shard, each able to take every hash position, runs to the end of
    the corpus; the keys handed to [bloom_insert] are the keys of the corpus
    lines, in order; and each of them is reported present by some shard, so
    that the aggregate query is true for it. *)
Theorem no_false_negatives_shard_set (shard_set : list BloomFilter)
    (corpus : list byte) (shard_count : Z) :
  0 < BLOOM_SIZE -> 1 <= shard_count <= SIZE_MAX ->
  Z.of_nat (length shard_set) = shard_count ->
  Forall covers_hashes shard_set ->
  exists st,
    populate_recursive_bloom_filters shard_set corpus shard_count 0 = Done st /\
    split_into_bloom_filters (Some corpus) shard_set shard_count
      = Done (filters st) /\
    reverse (inserted st).*2 = key_of_line <$> corpus_lines corpus /\
    forall k, k ∈ key_of_line <$> corpus_lines corpus ->
      contains_any (filters st) k = Some true /\
      exists i F, filters st !! i = Some F /\ bloom_contains F k = Some true.
Proof.
  intros Hpos Hn Hl Hc.
  destruct (populate_run shard_set corpus shard_count Hpos Hn Hl Hc)
    as (st & Hrun & _ & Hinv & _ & _ & Htrace).
  exists st. split; [done|].
  split; [unfold split_into_bloom_filters; by rewrite Hrun|].
  split; [done|].
  intros k Hk. rewrite <- Htrace, elem_of_reverse in Hk.
  apply list_elem_of_fmap in Hk as ([i k'] & -> & Hin).
  destruct Hinv as [_ _ Hcov Hpres].
  destruct (Hpres i k' Hin) as (F & HF & Hb). split.
  - by eapply contains_any_true.
  - by exists (Z.to_nat i), F.
Qed.

(** C6.  Round robin with rollover.  Population starts with the cursor at 0,
    takes the lines of the corpus in file order, and is the rotation of the
    specification over their keys: each key goes into the filter at the
    cursor, and the cursor then moves to [(cursor + 1) mod shard_count] when
    that filter reports full and stays otherwise.  No insert is refused: the
    run reaches the end of the corpus. *)
Theorem round_robin_rotation (shard_set : list BloomFilter)
    (corpus : list byte) (shard_count : Z) :
  0 < BLOOM_SIZE -> 1 <= shard_count <= SIZE_MAX ->
  Z.of_nat (length shard_set) = shard_count ->
  Forall covers_hashes shard_set ->
  exists st,
    populate_recursive_bloom_filters shard_set corpus shard_count 0 = Done st /\
    split_into_bloom_filters (Some corpus) shard_set shard_count
      = Done (filters st) /\
    current_filter (entry_state shard_set corpus 0) = 0 /\
    concat (corpus_lines corpus) = corpus /\
    pwned_file st = [] /\
    rotate shard_set 0 (key_of_line <$> corpus_lines corpus)
      = Some (filters st, current_filter st) /\
    forall st1 line' rest,
      reaches shard_count (entry_state shard_set corpus 0) st1 ->
      fgets (line st1) 128 (pwned_file st1) = Some (line', rest) ->
      exists l F F' st2,
        read_line 127 (pwned_file st1) = (l, rest) /\
        filters st1 !! Z.to_nat (current_filter st1) = Some F /\
        bloom_insert F (key_of_line l) = Some F' /\
        populate_body shard_count st1 line' rest = Some st2 /\
        filters st2 = <[Z.to_nat (current_filter st1) := F']> (filters st1) /\
        current_filter st2 =
          (if bloom_filter_is_full F'
           then (current_filter st1 + 1) mod shard_count
           else current_filter st1).
Proof.
  intros Hpos Hn Hl Hc.
  destruct (populate_run shard_set corpus shard_count Hpos Hn Hl Hc)
    as (st & Hrun & _ & _ & Hend & Hrot & _).
  exists st. split; [done|].
  split; [unfold split_into_bloom_filters; by rewrite Hrun|].
  split; [done|].
  split; [apply split_lines_concat; lia|].
  do 2 (split; [done|]).
  intros st1 line' rest Hreach Hg.
  assert (pop_inv shard_count st1) as Hinv.
  { eapply reaches_pop_inv; [done | lia | done |]. apply entry_inv; (done || lia). }
  destruct (populate_body_step shard_count st1 line' rest Hpos ltac:(lia) Hinv Hg)
    as (l & F & F' & st2 & Hl' & _ & HF & HF' & Hb & Efs & _ & Ecur & _).
  by exists l, F, F', st2.
Qed.

Lemma key_extraction (buf hp : list cell) (stream : list byte)
    (line' : list cell) (rest : list byte) :
  length hp = 11%nat ->
  fgets buf 128 stream = Some (line', rest) ->
  exists l,
    read_line 127 stream = (l, rest) /\
    extract_key hp line'
      = Some ((Some <$> copied l 10) ++ [Some x00], key_of_line l).
Proof.
  intros Hhp Hg.
  destruct (fgets_Some _ _ _ _ Hg) as (l & Hl & _ & _ & _ & ->).
  exists l. split; [done|]. by apply extract_key_line.
Qed.

(** C8, as amended.  For every line that [fgets] stores, and for every
    earlier content of the two buffers, indeterminate cells included, the key
    extraction is defined and its result is a function of the characters of
    the line alone: [strncpy] stops at the terminator of the line.  For a line
    of fewer than 10 characters the key is the line up to its first NUL and
    the rest of the 10-byte field is filled with NULs. *)
Theorem short_line_key (line hash_prefix : list cell) (stream : list byte)
    (line' : list cell) (rest : list byte) :
  length hash_prefix = 11%nat ->
  fgets line 128 stream = Some (line', rest) ->
  exists l,
    read_line 127 stream = (l, rest) /\
    extract_key hash_prefix line'
      = Some ((Some <$> copied l 10) ++ [Some x00], key_of_line l) /\
    ((length l < 10)%nat ->
     key_of_line l = take (strlen l) l /\
     copied l 10 = take (strlen l) l ++ replicate (10 - strlen l) x00).
Proof.
  intros Hhp Hg.
  destruct (key_extraction _ _ _ _ _ Hhp Hg) as (l & Hl & He).
  exists l. do 2 (split; [done|]). intros Hshort.
  unfold key_of_line. rewrite copied_shape.
  rewrite (take_ge l 10) by lia. done.
Qed.

Lemma populate_no_filters (file : list byte) :
  file <> [] -> populate_recursive_bloom_filters [] file 0 0 = Undefined.
Proof.
  intros Hne. unfold populate_recursive_bloom_filters.
  cbn [populate_loop].
  destruct (fgets (line (entry_state [] file 0)) 128
              (pwned_file (entry_state [] file 0))) as [[line' rest]|] eqn:Hg.
  - destruct (key_extraction _ (hash_prefix (entry_state [] file 0)) _ _ _
                eq_refl Hg) as (l & _ & He).
    rewrite (populate_body_unfold _ _ _ _ _ _ He). done.
  - apply fgets_None in Hg. done.
Qed.

Lemma populate_body_zero (st st' : pop_state) (line' : list cell)
    (rest : list byte) :
  populate_body 0 st line' rest = Some st' ->
  exists F',
    filters st' !! Z.to_nat (current_filter st) = Some F' /\
    bloom_filter_is_full F' = false.
Proof.
  intros H.
  destruct (populate_body_extracts _ _ _ _ _ H) as (hp & data & He).
  rewrite (populate_body_unfold _ _ _ _ _ _ He) in H.
  destruct (filters st !! Z.to_nat (current_filter st)) as [f|] eqn:Hf; [|done].
  cbn [mbind option_bind] in H.
  destruct (bloom_insert f data) as [f'|]; [|done].
  cbn [mbind option_bind] in H.
  destruct (bloom_filter_is_full f') eqn:Hfull; [done|].
  cbn [mbind option_bind] in H. injection H as <-. simpl.
  exists f'. split; [|done].
  apply list_lookup_insert_eq. by eapply lookup_lt_Some.
Qed.

(** C10.  Index safety of the population.  With [num_filters >= 1] filters,
    in every state the loop passes through the cursor is in
    [0, num_filters), the filter it designates exists, and every index that
    was used for an insert is in range; with filters able to take every hash
    position the run ends normally.  With no filter, the first line of a
    non-empty corpus makes the run undefined, by the access to
    [filters[0]]; and with [num_filters = 0] an iteration is defined only
    when the filter it inserted into is not full, the advance of the cursor
    being a remainder modulo zero otherwise. *)
Theorem populator_index_safety (filters0 : list BloomFilter)
    (corpus : list byte) (num_filters : Z) :
  Z.of_nat (length filters0) = num_filters -> num_filters <= SIZE_MAX ->
  (1 <= num_filters ->
   forall st, reaches num_filters (entry_state filters0 corpus 0) st ->
     0 <= current_filter st < num_filters /\
     is_Some (filters st !! Z.to_nat (current_filter st)) /\
     forall i k, (i, k) ∈ inserted st ->
       0 <= i < num_filters /\ is_Some (filters st !! Z.to_nat i)) /\
  (1 <= num_filters -> 0 < BLOOM_SIZE -> Forall covers_hashes filters0 ->
   exists st,
     populate_recursive_bloom_filters filters0 corpus num_filters 0 = Done st /\
     reaches num_filters (entry_state filters0 corpus 0) st) /\
  (num_filters = 0 -> corpus <> [] ->
   populate_recursive_bloom_filters filters0 corpus num_filters 0 = Undefined) /\
  (forall st st' line' rest,
     populate_body 0 st line' rest = Some st' ->
     exists F', filters st' !! Z.to_nat (current_filter st) = Some F' /\
                bloom_filter_is_full F' = false).
Proof.
  intros Hl Hmax. split; [|split; [|split]].
  - intros Hn st Hreach.
    assert (index_inv num_filters st) as Hinv.
    { eapply reaches_index; [done | done |].
      split; simpl; [lia | done |]. intros i k Hin. by apply elem_of_nil in Hin. }
    split; [apply Hinv|]. split; [by eapply index_inv_access|].
    intros i k Hin. destruct Hinv as [_ Hlen Hidx].
    specialize (Hidx i k Hin). split; [done|].
    apply lookup_lt_is_Some_2. lia.
  - intros Hn Hpos Hc.
    destruct (populate_run filters0 corpus num_filters Hpos ltac:(lia) Hl Hc)
      as (st & Hrun & Hreach & _).
    by exists st.
  - intros -> Hne. destruct filters0; [|done]. by apply populate_no_filters.
  - apply populate_body_zero.
Qed.

(** * Further properties *)

(** ** Bits and bytes *)

Lemma land_set_byte (b mi mj : Z) :
  0 <= mi < 8 -> 0 <= mj < 8 ->
  Z.land (to_uint8 (Z.lor b (Z.shiftl 1 mi))) (Z.shiftl 1 mj)
  = if mi =? mj then Z.shiftl 1 mj else Z.land b (Z.shiftl 1 mj).
Proof.
  intros Hi Hj. apply Z.bits_inj'. intros n Hn.
  rewrite Z.land_spec, mask_testbit by lia.
  destruct (Z.eqb_spec mj n) as [<-|Hne].
  - rewrite set_byte_testbit, andb_true_r by lia.
    destruct (Z.eqb_spec mi mj) as [->|Hne'].
    + by rewrite mask_testbit, Z.eqb_refl, orb_true_r by lia.
    + rewrite orb_false_r, Z.land_spec, mask_testbit, Z.eqb_refl by lia.
      by rewrite andb_true_r.
  - rewrite andb_false_r. destruct (mi =? mj).
    + rewrite mask_testbit by lia. symmetry. by apply Z.eqb_neq.
    + rewrite Z.land_spec, mask_testbit by lia.
      replace (mj =? n) with false by (symmetry; by apply Z.eqb_neq).
      by rewrite andb_false_r.
Qed.

(** X1.  [set_bit] and [get_bit] round trip: after a bit is set, reading it
    gives its mask, and reading any other bit gives what it gave before. *)
Theorem set_bit_get_bit (ba ba' : list Z) (i j : Z) :
  0 <= i -> 0 <= j ->
  set_bit ba i = Some ba' ->
  get_bit ba' i = Some (Z.shiftl 1 (i mod 8)) /\
  (j <> i -> get_bit ba' j = get_bit ba j).
Proof.
  intros Hi Hj. unfold set_bit. intros H.
  destruct (ba !! Z.to_nat (i / 8)) as [b|] eqn:Hb; simplify_eq/=.
  pose proof (lookup_lt_Some _ _ _ Hb) as Hlt.
  pose proof (mod8_range i). pose proof (mod8_range j).
  unfold get_bit. split.
  - rewrite list_lookup_insert_eq by done. simpl.
    by rewrite land_set_byte, Z.eqb_refl.
  - intros Hne.
    destruct (decide (Z.to_nat (j / 8) = Z.to_nat (i / 8))) as [Heq|Hq].
    + rewrite Heq, list_lookup_insert_eq, Hb by done. simpl.
      rewrite land_set_byte by done.
      destruct (Z.eqb_spec (i mod 8) (j mod 8)) as [Hm|]; [|done].
      exfalso. apply Hne. by apply index_split.
    + by rewrite list_lookup_insert_ne.
Qed.

Lemma set_bit_other_bytes (ba ba' : list Z) (i : Z) (n : nat) :
  set_bit ba i = Some ba' -> n <> Z.to_nat (i / 8) -> ba' !! n = ba !! n.
Proof.
  unfold set_bit. intros H Hn.
  destruct (ba !! Z.to_nat (i / 8)) as [b|]; simplify_eq/=.
  by apply list_lookup_insert_ne.
Qed.

Lemma set_bit_uint8 (ba ba' : list Z) (i : Z) :
  set_bit ba i = Some ba' -> uint8_array ba -> uint8_array ba'.
Proof.
  unfold set_bit, uint8_array. intros H Hu.
  destruct (ba !! Z.to_nat (i / 8)) as [b|]; simplify_eq/=.
  apply Forall_insert; [done | apply to_uint8_range].
Qed.

(** X2.  What an insert leaves alone: the bytes that hold none of the three
    positions, every bit that was set, the size, the length of the array, and
    the range of its bytes. *)
Theorem bloom_insert_frame (f f' : BloomFilter) (data : list byte) :
  bloom_insert f data = Some f' ->
  (forall n, (forall p, p ∈ positions data -> n <> Z.to_nat (p / 8)) ->
     bit_array f' !! n = bit_array f !! n) /\
  (forall i, 0 <= i -> bit_set (bit_array f) i -> bit_set (bit_array f') i) /\
  (uint8_array (bit_array f) -> uint8_array (bit_array f')) /\
  size f' = size f /\
  length (bit_array f') = length (bit_array f).
Proof.
  intros H.
  destruct (bloom_insert_effect _ _ _ H) as (Hs & _ & Hl & Hb).
  unfold bloom_insert in H.
  destruct (set_bit (bit_array f) (xxhash1 data)) as [ba1|] eqn:H1; simplify_eq/=.
  destruct (set_bit ba1 (xxhash2 data)) as [ba2|] eqn:H2; simplify_eq/=.
  destruct (set_bit ba2 (xxhash3 data)) as [ba3|] eqn:H3; simplify_eq/=.
  split; [|split; [|split]].
  - intros n Hn.
    rewrite (set_bit_other_bytes _ _ _ _ H3) by apply Hn, positions_3.
    rewrite (set_bit_other_bytes _ _ _ _ H2) by apply Hn, positions_2.
    apply (set_bit_other_bytes _ _ _ _ H1), Hn, positions_1.
  - intros i Hi Hset. apply Hb; [done | by left].
  - intros Hu.
    eapply set_bit_uint8; [exact H3|].
    eapply set_bit_uint8; [exact H2|].
    eapply set_bit_uint8; [exact H1 | exact Hu].
  - done.
Qed.

(** ** Order and repetition of inserts *)

Lemma set_byte_comm (b mi mj : Z) :
  to_uint8 (Z.lor (to_uint8 (Z.lor b (Z.shiftl 1 mi))) (Z.shiftl 1 mj))
  = to_uint8 (Z.lor (to_uint8 (Z.lor b (Z.shiftl 1 mj))) (Z.shiftl 1 mi)).
Proof.
  unfold to_uint8. apply Z.bits_inj'. intros n Hn.
  rewrite !Z.testbit_mod_pow2, !Z.lor_spec, !Z.testbit_mod_pow2, !Z.lor_spec
    by lia.
  destruct (n <? 8), (Z.testbit b n), (Z.testbit (Z.shiftl 1 mi) n),
    (Z.testbit (Z.shiftl 1 mj) n); done.
Qed.

Lemma set_bit_comm (ba : list Z) (i j : Z) :
  set_bit ba i ≫= (fun ba' => set_bit ba' j)
  = set_bit ba j ≫= (fun ba' => set_bit ba' i).
Proof.
  unfold set_bit.
  destruct (ba !! Z.to_nat (i / 8)) as [bi|] eqn:Hi,
           (ba !! Z.to_nat (j / 8)) as [bj|] eqn:Hj; cbn [mbind option_bind].
  - pose proof (lookup_lt_Some _ _ _ Hi). pose proof (lookup_lt_Some _ _ _ Hj).
    destruct (decide (Z.to_nat (i / 8) = Z.to_nat (j / 8))) as [Heq|Hne].
    + rewrite Heq in *. simplify_eq.
      rewrite !list_lookup_insert_eq by done. cbn [mbind option_bind].
      by rewrite !list_insert_insert_eq, set_byte_comm.
    + rewrite !list_lookup_insert_ne, Hi, Hj by done. cbn [mbind option_bind].
      by rewrite list_insert_insert_ne.
  - apply lookup_ge_None in Hj.
    rewrite (proj2 (lookup_ge_None _ _)) by (rewrite length_insert; lia). done.
  - apply lookup_ge_None in Hi.
    rewrite (proj2 (lookup_ge_None _ _)) by (rewrite length_insert; lia). done.
  - done.
Qed.

Lemma set_bits_app (ba : list Z) (l1 l2 : list Z) :
  set_bits ba (l1 ++ l2) = set_bits ba l1 ≫= (fun ba' => set_bits ba' l2).
Proof.
  revert ba. induction l1 as [|i l1 IH]; intros ba; [done|].
  cbn [app set_bits]. destruct (set_bit ba i) as [ba'|]; [apply IH | done].
Qed.

Lemma set_bits_permutation (ba : list Z) (l1 l2 : list Z) :
  l1 ≡ₚ l2 -> set_bits ba l1 = set_bits ba l2.
Proof.
  intros Hp. revert ba.
  induction Hp as [|i l1 l2 _ IH|i j l|l1 l2 l3 _ IH1 _ IH2]; intros ba.
  - done.
  - cbn [set_bits]. destruct (set_bit ba i); [apply IH | done].
  - cbn [set_bits]. pose proof (set_bit_comm ba j i) as Hc.
    destruct (set_bit ba j) as [b1|], (set_bit ba i) as [b2|];
      cbn [mbind option_bind] in *; try done.
    + destruct (set_bit b1 i), (set_bit b2 j); by simplify_eq.
    + by destruct (set_bit b1 i).
    + by destruct (set_bit b2 j).
  - by rewrite IH1.
Qed.

Lemma bloom_insert_set_bits (f : BloomFilter) (data : list byte) :
  bloom_insert f data
  = ba ← set_bits (bit_array f) (positions data);
    Some {| bit_array := ba; size := size f; count := count f + 1 |}.
Proof.
  unfold bloom_insert, positions. cbn [set_bits].
  destruct (set_bit (bit_array f) (xxhash1 data)) as [ba1|]; [|done].
  cbn [mbind option_bind].
  destruct (set_bit ba1 (xxhash2 data)) as [ba2|]; [|done].
  cbn [mbind option_bind].
  by destruct (set_bit ba2 (xxhash3 data)).
Qed.

Lemma bloom_insert_all_set_bits (f : BloomFilter) (ks : list (list byte)) :
  bloom_insert_all f ks
  = ba ← set_bits (bit_array f) (ks ≫= positions);
    Some {| bit_array := ba; size := size f;
            count := count f + Z.of_nat (length ks) |}.
Proof.
  revert f. induction ks as [|k ks IH]; intros f.
  - destruct f. cbn. by rewrite Z.add_0_r.
  - cbn [bloom_insert_all mbind list_bind]. rewrite set_bits_app.
    rewrite bloom_insert_set_bits.
    destruct (set_bits (bit_array f) (positions k)) as [ba|]; [|done].
    cbn [mbind option_bind]. rewrite IH. cbn [bit_array size count].
    destruct (set_bits ba _); [|done]. cbn [mbind option_bind].
    do 2 f_equal. cbn [length]. rewrite Nat2Z.inj_succ. lia.
Qed.

(** X3.  The filter a sequence of inserts produces does not depend on the
    order of the keys. *)
Theorem bloom_insert_all_permutation (f : BloomFilter)
    (ks1 ks2 : list (list byte)) :
  ks1 ≡ₚ ks2 -> bloom_insert_all f ks1 = bloom_insert_all f ks2.
Proof.
  intros Hp. rewrite !bloom_insert_all_set_bits.
  rewrite (set_bits_permutation _ (ks1 ≫= positions) (ks2 ≫= positions))
    by (by rewrite Hp).
  by rewrite (Permutation_length Hp).
Qed.

Lemma bloom_insert_firm (f f' : BloomFilter) (data : list byte) (p : Z) :
  bloom_insert f data = Some f' ->
  0 <= p -> firm (bit_array f) p \/ p ∈ positions data ->
  firm (bit_array f') p.
Proof.
  unfold bloom_insert. intros H Hp Hor.
  destruct (set_bit (bit_array f) (xxhash1 data)) as [ba1|] eqn:H1; simplify_eq/=.
  destruct (set_bit ba1 (xxhash2 data)) as [ba2|] eqn:H2; simplify_eq/=.
  destruct (set_bit ba2 (xxhash3 data)) as [ba3|] eqn:H3; simplify_eq/=.
  assert (0 <= xxhash1 data) as P1 by (apply (positions_nonneg data), positions_1).
  assert (0 <= xxhash2 data) as P2 by (apply (positions_nonneg data), positions_2).
  assert (0 <= xxhash3 data) as P3 by (apply (positions_nonneg data), positions_3).
  unfold positions in Hor. rewrite !elem_of_cons, elem_of_nil in Hor.
  destruct Hor as [Hf|[->|[->|[->|[]]]]].
  - eapply set_bit_firm_keeps, H3; try done.
    eapply set_bit_firm_keeps, H2; try done.
    eapply set_bit_firm_keeps, H1; done.
  - eapply set_bit_firm_keeps, H3; try done.
    eapply set_bit_firm_keeps, H2; try done.
    by eapply set_bit_firm.
  - eapply set_bit_firm_keeps, H3; try done. by eapply set_bit_firm.
  - by eapply set_bit_firm.
Qed.

Lemma bloom_insert_all_firm (f f' : BloomFilter) (ks : list (list byte))
    (p : Z) :
  bloom_insert_all f ks = Some f' ->
  0 <= p -> firm (bit_array f) p \/ (exists k, k ∈ ks /\ p ∈ positions k) ->
  firm (bit_array f') p.
Proof.
  revert f. induction ks as [|k ks IH]; intros f H Hp Hor; simpl in H.
  - simplify_eq. destruct Hor as [?|(k & Hk & _)]; [done|].
    by apply elem_of_nil in Hk.
  - destruct (bloom_insert f k) as [f1|] eqn:H1; simplify_eq/=.
    apply (IH f1 H Hp).
    destruct Hor as [Hf|(k' & Hk' & Hin)].
    + left. eapply bloom_insert_firm; eauto.
    + apply elem_of_cons in Hk' as [->|Hk'].
      * left. eapply bloom_insert_firm; eauto.
      * right. by exists k'.
Qed.

(** X4.  Duplicates are not detected: inserting a key that is among those
    already inserted leaves the bit array as it is and still adds one to the
    counter. *)
Theorem bloom_insert_duplicate (f f' : BloomFilter) (ks : list (list byte))
    (k : list byte) :
  bloom_insert_all f ks = Some f' -> k ∈ ks ->
  bloom_insert f' k =
    Some {| bit_array := bit_array f'; size := size f'; count := count f' + 1 |}.
Proof.
  intros H Hk.
  assert (forall p, p ∈ positions k -> firm (bit_array f') p) as Hf.
  { intros p Hp. eapply bloom_insert_all_firm; [done | by eapply positions_nonneg |].
    right. by exists k. }
  unfold bloom_insert.
  rewrite (set_bit_idem _ _ (Hf _ (positions_1 k))). cbn [mbind option_bind].
  rewrite (set_bit_idem _ _ (Hf _ (positions_2 k))). cbn [mbind option_bind].
  rewrite (set_bit_idem _ _ (Hf _ (positions_3 k))). done.
Qed.

(** ** Answers of the query *)

Lemma bloom_contains_false (f : BloomFilter) (data : list byte) :
  bloom_contains f data = Some false ->
  exists p, p ∈ positions data /\ ~ bit_set (bit_array f) p.
Proof.
  unfold bloom_contains. intros H.
  assert (forall p v, get_bit (bit_array f) p = Some v -> (v =? 0) = true ->
                      ~ bit_set (bit_array f) p) as Hclear.
  { intros p v Hg Hz (b' & Hb' & Ht).
    destruct (get_bit_spec _ _ _ Hg) as (b & Hb & E).
    rewrite Hz in E. simplify_eq. by rewrite Ht in E. }
  destruct (get_bit (bit_array f) (xxhash1 data)) as [v1|] eqn:H1; [|done].
  cbn [mbind option_bind] in H.
  destruct (v1 =? 0) eqn:Z1.
  { exists (xxhash1 data). split; [apply positions_1 | by eapply Hclear]. }
  destruct (get_bit (bit_array f) (xxhash2 data)) as [v2|] eqn:H2; [|done].
  cbn [mbind option_bind] in H.
  destruct (v2 =? 0) eqn:Z2.
  { exists (xxhash2 data). split; [apply positions_2 | by eapply Hclear]. }
  destruct (get_bit (bit_array f) (xxhash3 data)) as [v3|] eqn:H3; [|done].
  cbn [mbind option_bind] in H.
  destruct (v3 =? 0) eqn:Z3; [|done].
  exists (xxhash3 data). split; [apply positions_3 | by eapply Hclear].
Qed.

(** X5.  The answers of a filter that was created and then took the keys
    [ks]: a key is reported present exactly when each of its three positions
    is a position of some key of [ks], and reported absent exactly when one of
    its positions is a position of none.  A false positive is a key outside
    [ks] whose positions are all covered. *)
Theorem bloom_contains_exact (a : allocator) (capacity : Z) (F : BloomFilter)
    (ks : list (list byte)) (k : list byte) :
  0 < BLOOM_SIZE <= 8 * (capacity / 8) ->
  create_bloom_filter a capacity = Some F ->
  exists F',
    bloom_insert_all F ks = Some F' /\
    (bloom_contains F' k = Some true <->
     forall p, p ∈ positions k -> exists k', k' ∈ ks /\ p ∈ positions k') /\
    (bloom_contains F' k = Some false <->
     exists p, p ∈ positions k /\ forall k', k' ∈ ks -> p ∉ positions k').
Proof.
  intros [Hpos Hle] Hc.
  assert (0 <= capacity) as Hcap.
  { destruct (Z.le_gt_cases 0 capacity) as [|Hneg]; [done|].
    pose proof (Z.div_lt_upper_bound capacity 8 0 ltac:(lia) ltac:(lia)). lia. }
  pose proof (create_covers _ _ _ Hle Hcap Hc) as HF.
  destruct (bloom_insert_all_defined F ks Hpos HF) as (F' & E & HF').
  destruct (bloom_insert_all_effect _ _ _ E) as (_ & _ & _ & Hb).
  pose proof (create_bloom_filter_Some _ _ _ Hc) as EF.
  assert (forall p, p ∈ positions k ->
            bit_set (bit_array F') p <-> exists k', k' ∈ ks /\ p ∈ positions k')
    as Hset.
  { intros p Hp. rewrite (Hb p (positions_nonneg _ _ Hp)).
    split; [|by right]. intros [H0|H1]; [|done].
    rewrite EF in H0. by apply bit_set_zeroes in H0. }
  exists F'. split; [done|]. split.
  - rewrite bloom_contains_true. split.
    + intros H p Hp. apply Hset; [done | by apply H].
    + intros H p Hp. apply Hset; [done | by apply H].
  - split.
    + intros Hf. destruct (bloom_contains_false _ _ Hf) as (p & Hp & Hn).
      exists p. split; [done|]. intros k' Hk' Hin.
      apply Hn, Hset; [done | by exists k'].
    + intros (p & Hp & Hn).
      destruct (bloom_contains_defined F' k Hpos HF') as [[|] Hd]; [|done].
      pose proof (proj1 (bloom_contains_true F' k) Hd p Hp) as Hs.
      apply Hset in Hs as (k' & Hk' & Hin); [|done]. by destruct (Hn k' Hk').
Qed.

(** X6.  Fullness after inserts.  A created filter that took [n] inserts is
    full exactly when [n] is at least an eighth of its capacity, and a full
    filter stays full whatever is inserted later. *)
Theorem fullness_after_inserts (a : allocator) (capacity : Z)
    (F : BloomFilter) (ks more : list (list byte)) :
  0 < BLOOM_SIZE <= 8 * (capacity / 8) ->
  create_bloom_filter a capacity = Some F ->
  exists F' F'',
    bloom_insert_all F ks = Some F' /\
    bloom_insert_all F' more = Some F'' /\
    (bloom_filter_is_full F' = true <-> capacity / 8 <= Z.of_nat (length ks)) /\
    (bloom_filter_is_full F' = true -> bloom_filter_is_full F'' = true).
Proof.
  intros [Hpos Hle] Hc.
  assert (0 <= capacity) as Hcap.
  { destruct (Z.le_gt_cases 0 capacity) as [|Hneg]; [done|].
    pose proof (Z.div_lt_upper_bound capacity 8 0 ltac:(lia) ltac:(lia)). lia. }
  pose proof (create_covers _ _ _ Hle Hcap Hc) as HF.
  destruct (bloom_insert_all_defined F ks Hpos HF) as (F' & E & HF').
  destruct (bloom_insert_all_defined F' more Hpos HF') as (F'' & E' & _).
  destruct (bloom_insert_all_effect _ _ _ E) as (Hs & Hn & _ & _).
  destruct (bloom_insert_all_effect _ _ _ E') as (Hs' & Hn' & _ & _).
  apply create_bloom_filter_Some in Hc. subst F. simpl in Hs, Hn.
  exists F', F''. do 2 (split; [done|]).
  unfold bloom_filter_is_full. rewrite !Z.leb_le, Hs', Hn', Hs, Hn. lia.
Qed.

(** ** Keys as C strings *)

Lemma strlen_nul_free (k : list byte) :
  Forall (fun c => is_nul c = false) k -> strlen k = length k.
Proof.
  induction 1 as [|c k Hc _ IH]; [done|]. cbn [strlen length].
  by rewrite Hc, IH.
Qed.

Lemma strlen_terminated (k junk : list byte) :
  Forall (fun c => is_nul c = false) k -> strlen (k ++ x00 :: junk) = length k.
Proof.
  induction 1 as [|c k Hc _ IH]; [done|]. cbn [app strlen length].
  by rewrite Hc, IH.
Qed.

Lemma hashed_bytes (k junk : list byte) :
  Forall (fun c => is_nul c = false) k ->
  take (strlen (k ++ x00 :: junk)) (k ++ x00 :: junk) = take (strlen k) k.
Proof.
  intros Hk. rewrite strlen_terminated, strlen_nul_free by done.
  by rewrite take_app_length, firstn_all.
Qed.

(** X7.  Keys are C strings: what follows the first NUL of a key is ignored
    by the hash functions, so an insert or a query with such a key is the
    insert or the query with the bytes before the NUL. *)
Theorem keys_end_at_nul (f : BloomFilter) (k junk : list byte) :
  Forall (fun c => is_nul c = false) k ->
  bloom_insert f (k ++ x00 :: junk) = bloom_insert f k /\
  bloom_contains f (k ++ x00 :: junk) = bloom_contains f k.
Proof.
  intros Hk. pose proof (hashed_bytes k junk Hk) as E.
  unfold bloom_insert, bloom_contains, xxhash1, xxhash2, xxhash3.
  by rewrite E.
Qed.

(** ** The planner and the probe *)

Lemma ceil_div_mono (a b w : Z) :
  0 < w -> a <= b -> ceil_div a w <= ceil_div b w.
Proof.
  intros Hw Hab.
  pose proof (ceil_div_bounds a w Hw). pose proof (ceil_div_bounds b w Hw).
  nia.
Qed.

(** X8.  Within the bounds of the C arithmetic the planner is monotone in
    the file size, never negative, and returns 0 for the empty file only. *)
Theorem planner_monotone (size1 size2 : Z) :
  0 < BLOOM_SIZE <= SIZE_MAX -> 0 <= size1 <= size2 ->
  size2 + BLOOM_SIZE - 1 <= SIZE_MAX ->
  ceil_div size2 BLOOM_SIZE <= INT_MAX ->
  determine_optimal_bloom_filters size1 <= determine_optimal_bloom_filters size2 /\
  0 <= determine_optimal_bloom_filters size1 /\
  (determine_optimal_bloom_filters size2 = 0 <-> size2 = 0).
Proof.
  intros HB Hs Hsum Hq. pose proof HB as [Hpos _].
  pose proof (ceil_div_mono size1 size2 BLOOM_SIZE Hpos ltac:(lia)) as Hm.
  rewrite !determine_optimal_bloom_filters_exact by (done || lia).
  pose proof (ceil_div_bounds size1 BLOOM_SIZE Hpos).
  pose proof (ceil_div_bounds size2 BLOOM_SIZE Hpos).
  split; [done|]. split; [nia|]. split; intros; nia.
Qed.

(** X9.  A file that [stat] cannot reach is sized like an empty file, and
    the planner then asks for no filter at all; a size that fits [size_t] is
    reported as it is. *)
Theorem unreachable_file_plans_nothing (st_size : Z) :
  0 < BLOOM_SIZE <= SIZE_MAX -> 0 <= st_size <= SIZE_MAX ->
  get_file_size None = get_file_size (Some 0) /\
  determine_optimal_bloom_filters (get_file_size None) = 0 /\
  get_file_size (Some st_size) = st_size.
Proof.
  intros HB Hs. split; [done|]. split.
  - unfold get_file_size.
    rewrite determine_optimal_bloom_filters_exact;
      unfold SIZE_MAX, INT_MAX in *; try lia.
    + symmetry. apply ceil_div_unique; lia.
    + rewrite <- (ceil_div_unique 0 BLOOM_SIZE 0); lia.
  - unfold get_file_size, to_size_t, SIZE_MAX in *. apply Z.mod_small. lia.
Qed.

(** ** Lines of the corpus *)

Lemma split_lines_fuel (fuel1 fuel2 : nat) (s : list byte) :
  (length s < fuel1)%nat -> (length s < fuel2)%nat ->
  split_lines fuel1 s = split_lines fuel2 s.
Proof.
  revert fuel2 s. induction fuel1 as [|fuel1 IH]; intros fuel2 s H1 H2; [lia|].
  destruct fuel2 as [|fuel2]; [lia|].
  destruct s as [|c s]; [done|]. cbn [split_lines].
  destruct (read_line 127 (c :: s)) as [l rest] eqn:E.
  destruct (read_line_progress _ _ _ _ _ E) as [_ Hr].
  f_equal. apply IH; lia.
Qed.

Lemma corpus_lines_cons (s l rest : list byte) :
  s <> [] -> read_line 127 s = (l, rest) ->
  corpus_lines s = l :: corpus_lines rest.
Proof.
  intros Hs E. unfold corpus_lines. destruct s as [|c s]; [done|].
  destruct (read_line_progress _ _ _ _ _ E) as [_ Hr].
  change (split_lines (S (length (c :: s))) (c :: s))
    with (let '(l0, rest0) := read_line 127 (c :: s) in
          l0 :: split_lines (length (c :: s)) rest0).
  rewrite E. f_equal. apply split_lines_fuel; simpl in *; lia.
Qed.

Lemma text_lines_nil (s : list byte) : text_lines s = [] -> s = [].
Proof.
  destruct s as [|c s]; [done|]. cbn [text_lines].
  destruct (is_newline c); [done|]. by destruct (text_lines s).
Qed.

Lemma read_line_text (n : nat) (s l : list byte) (ls : list (list byte)) :
  text_lines s = l :: ls -> (length l <= n)%nat ->
  exists rest, read_line n s = (l, rest) /\ text_lines rest = ls.
Proof.
  revert n l ls. induction s as [|c s IH]; intros n l ls Ht Hl; [done|].
  cbn [text_lines] in Ht. destruct (is_newline c) eqn:Hc.
  - simplify_eq. destruct n as [|n]; [simpl in Hl; lia|].
    exists s. cbn [read_line]. by rewrite Hc.
  - destruct (text_lines s) as [|l0 ls0] eqn:Es; simplify_eq.
    + apply text_lines_nil in Es as ->.
      destruct n as [|n]; [simpl in Hl; lia|].
      exists []. cbn [read_line]. rewrite Hc. by destruct n.
    + destruct n as [|n]; [simpl in Hl; lia|].
      destruct (IH n l0 ls eq_refl) as (rest & Er & Et); [simpl in Hl; lia|].
      exists rest. cbn [read_line]. by rewrite Hc, Er.
Qed.

Lemma split_lines_text (fuel : nat) (s : list byte) :
  (length s < fuel)%nat ->
  Forall (fun l => (length l <= 127)%nat) (text_lines s) ->
  split_lines fuel s = text_lines s.
Proof.
  revert s. induction fuel as [|fuel IH]; intros s Hlt Hf; [lia|].
  destruct s as [|c s]; [done|].
  destruct (text_lines (c :: s)) as [|l ls] eqn:Et;
    [by apply text_lines_nil in Et|].
  apply Forall_cons in Hf as [Hl Hls].
  destruct (read_line_text 127 _ _ _ Et Hl) as (rest & Er & Etr).
  cbn [split_lines]. rewrite Er.
  destruct (read_line_progress _ _ _ _ _ Er) as [_ Hr].
  f_equal. rewrite IH; [done | simpl in *; lia | by rewrite Etr].
Qed.

Lemma corpus_lines_text (file : list byte) :
  Forall (fun l => (length l <= 127)%nat) (text_lines file) ->
  corpus_lines file = text_lines file.
Proof. intros Hf. apply split_lines_text; [lia | done]. Qed.

Lemma read_line_no_newline (n : nat) (s : list byte) :
  Forall (fun c => is_newline c = false) (take n s) ->
  read_line n s = (take n s, drop n s).
Proof.
  revert s. induction n as [|n IH]; intros s Hf; [by destruct s|].
  destruct s as [|c s]; [done|].
  cbn [take] in Hf. apply Forall_cons in Hf as [Hc Hf].
  cbn [read_line take drop]. by rewrite Hc, (IH s Hf).
Qed.

Lemma corpus_lines_long (file : list byte) :
  (127 < length file)%nat ->
  Forall (fun c => is_newline c = false) (take 127 file) ->
  exists l2 rest ls,
    drop 127 file = l2 ++ rest /\ l2 <> [] /\
    corpus_lines file = take 127 file :: l2 :: ls.
Proof.
  intros Hlen Hf.
  assert (drop 127 file <> []) as Hd.
  { intros E. apply (f_equal length) in E. rewrite length_drop in E.
    simpl in E. lia. }
  destruct (read_line 127 (drop 127 file)) as [l2 rest] eqn:E2.
  destruct (read_line_split _ _ _ _ E2) as [Es _].
  exists l2, rest, (corpus_lines rest). split; [done|]. split.
  - destruct (drop 127 file) as [|c d]; [done|].
    by destruct (read_line_progress _ _ _ _ _ E2).
  - rewrite (corpus_lines_cons file (take 127 file) (drop 127 file));
      [|intros ->; simpl in Hlen; lia | by apply read_line_no_newline].
    f_equal. by apply corpus_lines_cons.
Qed.

(** X12.  A line of at least 10 characters with no NUL among the first 10
    gives these 10 characters as its key, and [hash_prefix] holds them and the
    terminator. *)
Theorem full_width_key (line hash_prefix : list cell) (stream : list byte)
    (line' : list cell) (rest : list byte) :
  length hash_prefix = 11%nat ->
  fgets line 128 stream = Some (line', rest) ->
  (10 <= length (read_line 127 stream).1)%nat ->
  Forall (fun c => is_nul c = false) (take 10 (read_line 127 stream).1) ->
  extract_key hash_prefix line'
  = Some ((Some <$> take 10 (read_line 127 stream).1) ++ [Some x00],
          take 10 (read_line 127 stream).1).
Proof.
  intros Hhp Hg Hlen Hnul.
  destruct (key_extraction _ _ _ _ _ Hhp Hg) as (l & Hl & He).
  rewrite Hl in *. cbn [fst] in *. rewrite He.
  assert (strlen (take 10 l) = 10%nat) as Es.
  { rewrite strlen_nul_free by done. rewrite length_take. lia. }
  unfold key_of_line. rewrite copied_shape, Es.
  rewrite take_take. cbn [replicate Nat.sub Nat.min].
  by rewrite app_nil_r.
Qed.

(** ** Population as a whole *)

Lemma entry_inv_at (fs : list BloomFilter) (file : list byte) (n c : Z) :
  0 <= c < n -> Z.of_nat (length fs) = n -> Forall covers_hashes fs ->
  pop_inv n (entry_state fs file c).
Proof.
  intros Hc Hl Hcov. split; [split|..]; simpl; try done.
  - intros i k Hin. by apply elem_of_nil in Hin.
  - intros i k Hin. by apply elem_of_nil in Hin.
Qed.

Lemma populate_run_at (fs : list BloomFilter) (file : list byte) (n c : Z) :
  0 < BLOOM_SIZE -> n <= SIZE_MAX -> 0 <= c < n ->
  Z.of_nat (length fs) = n -> Forall covers_hashes fs ->
  exists st,
    populate_recursive_bloom_filters fs file n c = Done st /\
    pop_inv n st /\
    pwned_file st = [] /\
    rotate fs c (key_of_line <$> corpus_lines file)
      = Some (filters st, current_filter st).
Proof.
  intros Hpos Hmax Hc Hl Hcov.
  destruct (populate_loop_run n Hpos Hmax (S (length file))
              (entry_state fs file c))
    as (st & Hrun & _ & Hinv & Hend & Hrot & _);
    [simpl; lia | by apply entry_inv_at |].
  by exists st.
Qed.

(** X10.  When no line of the file, its newline included, has more than 127
    characters, the keys the loop inserts are the keys of the lines of the
    file, one for each line and in their order. *)
Theorem one_key_per_line (fs : list BloomFilter) (file : list byte) (n : Z) :
  0 < BLOOM_SIZE -> 1 <= n <= SIZE_MAX ->
  Z.of_nat (length fs) = n -> Forall covers_hashes fs ->
  Forall (fun l => (length l <= 127)%nat) (text_lines file) ->
  exists st,
    populate_recursive_bloom_filters fs file n 0 = Done st /\
    reverse (inserted st).*2 = key_of_line <$> text_lines file.
Proof.
  intros Hpos Hn Hl Hcov Hlines.
  destruct (populate_run fs file n Hpos Hn Hl Hcov)
    as (st & Hrun & _ & _ & _ & _ & Htrace).
  exists st. split; [done|]. by rewrite Htrace, corpus_lines_text.
Qed.

(** X11.  A line of more than 127 characters is cut: the loop inserts the
    key of its first 127 characters and then a key that starts at the 128th
    character, in the middle of the line. *)
Theorem long_line_is_cut (fs : list BloomFilter) (file : list byte) (n : Z) :
  0 < BLOOM_SIZE -> 1 <= n <= SIZE_MAX ->
  Z.of_nat (length fs) = n -> Forall covers_hashes fs ->
  (127 < length file)%nat ->
  Forall (fun c => is_newline c = false) (take 127 file) ->
  exists st l2 rest keys,
    populate_recursive_bloom_filters fs file n 0 = Done st /\
    drop 127 file = l2 ++ rest /\ l2 <> [] /\
    reverse (inserted st).*2
      = key_of_line (take 127 file) :: key_of_line l2 :: keys.
Proof.
  intros Hpos Hn Hl Hcov Hlen Hnl.
  destruct (populate_run fs file n Hpos Hn Hl Hcov)
    as (st & Hrun & _ & _ & _ & _ & Htrace).
  destruct (corpus_lines_long file Hlen Hnl) as (l2 & rest & ls & Ed & Hne & El).
  exists st, l2, rest, (key_of_line <$> ls). do 3 (split; [done|]).
  by rewrite Htrace, El.
Qed.

(** X13.  The loop from any cursor in range: it runs to the end of the file,
    it is the rotation over the keys of the lines started at that cursor, and
    it leaves the cursor in range. *)
Theorem populate_from_cursor (fs : list BloomFilter) (file : list byte)
    (n c : Z) :
  0 < BLOOM_SIZE -> n <= SIZE_MAX -> 0 <= c < n ->
  Z.of_nat (length fs) = n -> Forall covers_hashes fs ->
  exists st,
    populate_recursive_bloom_filters fs file n c = Done st /\
    pwned_file st = [] /\
    rotate fs c (key_of_line <$> corpus_lines file)
      = Some (filters st, current_filter st) /\
    0 <= current_filter st < n.
Proof.
  intros Hpos Hmax Hc Hl Hcov.
  destruct (populate_run_at fs file n c Hpos Hmax Hc Hl Hcov)
    as (st & Hrun & Hinv & Hend & Hrot).
  exists st. do 3 (split; [done|]). apply Hinv.
Qed.

(** X14.  A cursor at or beyond the end of the array: the first line of a
    non-empty file makes the run undefined, whatever [num_filters] says. *)
Theorem cursor_out_of_range (fs : list BloomFilter) (file : list byte)
    (n c : Z) :
  file <> [] -> Z.of_nat (length fs) <= c ->
  populate_recursive_bloom_filters fs file n c = Undefined.
Proof.
  intros Hne Hc. unfold populate_recursive_bloom_filters.
  cbn [populate_loop].
  destruct (fgets (line (entry_state fs file c)) 128
              (pwned_file (entry_state fs file c))) as [[line' rest]|] eqn:Hg.
  - destruct (key_extraction _ (hash_prefix (entry_state fs file c)) _ _ _
                eq_refl Hg) as (l & _ & He).
    rewrite (populate_body_unfold _ _ _ _ _ _ He). cbn [filters entry_state
      current_filter].
    rewrite (proj2 (lookup_ge_None fs (Z.to_nat c))) by lia. done.
  - apply fgets_None in Hg. done.
Qed.

Lemma rotate_single (f : BloomFilter) (ks : list (list byte)) :
  rotate [f] 0 ks = f' ← bloom_insert_all f ks; Some ([f'], 0).
Proof.
  revert f. induction ks as [|k ks IH]; intros f; [done|].
  cbn [rotate bloom_insert_all]. change ([f] !! Z.to_nat 0) with (Some f).
  cbn [mbind option_bind].
  destruct (bloom_insert f k) as [f1|]; [|done]. cbn [mbind option_bind].
  change (<[Z.to_nat 0 := f1]> [f]) with [f1].
  replace (if bloom_filter_is_full f1
           then (0 + 1) mod Z.of_nat (length [f]) else 0) with 0
    by (by destruct (bloom_filter_is_full f1)).
  apply IH.
Qed.

(** X15.  With a single filter the population is the sequence of inserts of
    the keys of the lines into that filter. *)
Theorem single_shard_population (f : BloomFilter) (file : list byte) :
  0 < BLOOM_SIZE -> covers_hashes f ->
  exists f',
    bloom_insert_all f (key_of_line <$> corpus_lines file) = Some f' /\
    split_into_bloom_filters (Some file) [f] 1 = Done [f'].
Proof.
  intros Hpos Hc.
  destruct (populate_run_at [f] file 1 0 Hpos ltac:(unfold SIZE_MAX; lia)
              ltac:(lia) eq_refl ltac:(by constructor))
    as (st & Hrun & _ & _ & Hrot).
  rewrite rotate_single in Hrot.
  destruct (bloom_insert_all f (key_of_line <$> corpus_lines file)) as [f'|];
    [|done].
  cbn [mbind option_bind] in Hrot. exists f'. split; [done|].
  unfold split_into_bloom_filters. rewrite Hrun. cbn [filters_of]. congruence.
Qed.

Lemma total_count_insert (fs : list BloomFilter) (i : nat)
    (f f' : BloomFilter) :
  fs !! i = Some f ->
  total_count (<[i := f']> fs) = total_count fs - count f + count f'.
Proof.
  revert i. induction fs as [|g fs IH]; intros i Hi; [done|].
  destruct i as [|i]; simplify_eq/=; [lia|]. rewrite (IH i Hi). lia.
Qed.

Lemma rotate_effect (ks : list (list byte)) :
  forall (fs fs' : list BloomFilter) (c c' : Z),
    0 <= c < Z.of_nat (length fs) ->
    rotate fs c ks = Some (fs', c') ->
    length fs' = length fs /\
    0 <= c' < Z.of_nat (length fs) /\
    total_count fs' = total_count fs + Z.of_nat (length ks) /\
    forall i f, fs !! i = Some f -> exists f', fs' !! i = Some f' /\ grown f f'.
Proof.
  induction ks as [|k ks IH]; intros fs fs' c c' Hc H.
  - cbn [rotate] in H. simplify_eq. do 2 (split; [done|]).
    split; [simpl; lia|]. intros i f Hi. exists f. by repeat split.
  - cbn [rotate] in H.
    destruct (fs !! Z.to_nat c) as [f0|] eqn:H0; [|done].
    cbn [mbind option_bind] in H.
    destruct (bloom_insert f0 k) as [f1|] eqn:H1; [|done].
    cbn [mbind option_bind] in H.
    destruct (bloom_insert_effect _ _ _ H1) as (S1 & C1 & _ & _).
    apply IH in H as (Hl & Hc' & Ht & Hg).
    + rewrite length_insert in Hl, Hc'.
      split; [done|]. split; [done|].
      split; [rewrite Ht, (total_count_insert _ _ _ _ H0); cbn [length];
              rewrite Nat2Z.inj_succ; lia|].
      intros i f Hi.
      destruct (decide (i = Z.to_nat c)) as [->|Hne].
      * simplify_eq.
        destruct (Hg (Z.to_nat c) f1) as (f' & Hf' & G1 & G2 & G3).
        { apply list_lookup_insert_eq. by eapply lookup_lt_Some. }
        exists f'. split; [done|]. split; [congruence|]. split; [lia|].
        intros k' Hk'. apply G3. by eapply bloom_insert_keeps.
      * apply Hg. by rewrite list_lookup_insert_ne.
    + rewrite length_insert.
      destruct (bloom_filter_is_full f1); [|done].
      apply Z.mod_pos_bound. lia.
Qed.

(** X16.  What population keeps.  The number and the sizes of the filters do
    not change; every line adds one to the count of exactly one filter, so the
    counts add up to what they were plus the number of lines; and a key that
    a filter reported present before is still reported present by it. *)
Theorem population_conserves (fs : list BloomFilter) (file : list byte)
    (n : Z) :
  0 < BLOOM_SIZE -> 1 <= n <= SIZE_MAX ->
  Z.of_nat (length fs) = n -> Forall covers_hashes fs ->
  exists fs',
    split_into_bloom_filters (Some file) fs n = Done fs' /\
    length fs' = length fs /\
    total_count fs' = total_count fs + Z.of_nat (length (corpus_lines file)) /\
    forall i f, fs !! i = Some f ->
      exists f', fs' !! i = Some f' /\
        size f' = size f /\ count f <= count f' /\
        forall k, bloom_contains f k = Some true ->
                  bloom_contains f' k = Some true.
Proof.
  intros Hpos [Hn Hmax] Hl Hcov.
  destruct (populate_run_at fs file n 0 Hpos Hmax ltac:(lia) Hl Hcov)
    as (st & Hrun & _ & _ & Hrot).
  apply rotate_effect in Hrot as (Hlen & _ & Ht & Hg); [|lia].
  exists (filters st).
  split; [unfold split_into_bloom_filters; by rewrite Hrun|].
  split; [done|]. split; [by rewrite Ht, length_fmap|]. exact Hg.
Qed.

(** X17.  The shard set comes back untouched exactly when the file could not
    be opened or is empty. *)
Theorem untouched_shard_set (file : option (list byte))
    (fs : list BloomFilter) (n : Z) :
  0 < BLOOM_SIZE -> 1 <= n <= SIZE_MAX ->
  Z.of_nat (length fs) = n -> Forall covers_hashes fs ->
  split_into_bloom_filters file fs n = Done fs <->
  file = None \/ file = Some [].
Proof.
  intros Hpos [Hn Hmax] Hl Hcov. split.
  - intros H. destruct file as [[|c s]|]; [by right | | by left].
    exfalso.
    destruct (populate_run_at fs (c :: s) n 0 Hpos Hmax ltac:(lia) Hl Hcov)
      as (st & Hrun & _ & _ & Hrot).
    unfold split_into_bloom_filters in H. rewrite Hrun in H.
    cbn [filters_of] in H. injection H as E.
    apply rotate_effect in Hrot as (_ & _ & Ht & _); [|lia].
    destruct (read_line 127 (c :: s)) as [l rest] eqn:Er.
    rewrite (corpus_lines_cons (c :: s) l rest) in Ht by done.
    rewrite E in Ht. cbn [fmap list_fmap length] in Ht.
    rewrite Nat2Z.inj_succ in Ht. lia.
  - intros [->| ->]; done.
Qed.

(** X18.  Only the first 10 characters of a line count: two files whose
    lines agree on their first 10 characters leave the same filters. *)
Theorem only_the_prefix_counts (fs : list BloomFilter)
    (file1 file2 : list byte) (n : Z) :
  0 < BLOOM_SIZE -> 1 <= n <= SIZE_MAX ->
  Z.of_nat (length fs) = n -> Forall covers_hashes fs ->
  take 10 <$> corpus_lines file1 = take 10 <$> corpus_lines file2 ->
  exists fs',
    split_into_bloom_filters (Some file1) fs n = Done fs' /\
    split_into_bloom_filters (Some file2) fs n = Done fs'.
Proof.
  intros Hpos [Hn Hmax] Hl Hcov Heq.
  destruct (populate_run_at fs file1 n 0 Hpos Hmax ltac:(lia) Hl Hcov)
    as (st1 & Hrun1 & _ & _ & Hrot1).
  destruct (populate_run_at fs file2 n 0 Hpos Hmax ltac:(lia) Hl Hcov)
    as (st2 & Hrun2 & _ & _ & Hrot2).
  assert (key_of_line <$> corpus_lines file1
          = key_of_line <$> corpus_lines file2) as Ek.
  { change key_of_line with ((fun p => take (strlen p) p) ∘ take 10).
    by rewrite !list_fmap_compose, Heq. }
  rewrite Ek in Hrot1. rewrite Hrot1 in Hrot2. injection Hrot2 as Ef _.
  exists (filters st1). unfold split_into_bloom_filters.
  rewrite Hrun1, Hrun2. cbn [filters_of]. by rewrite Ef.
Qed.

(** X19.  From the size of the file to the queries.  For a non-empty file
    within the bounds of the planner, the planner asks for at least one
    filter; with that many filters, each created with capacity [BLOOM_SIZE],
    the population ends normally and every key of the file is reported
    present by the shard set. *)
Theorem plan_populate_query (fs : list BloomFilter) (file : list byte) :
  0 < BLOOM_SIZE <= SIZE_MAX -> BLOOM_SIZE mod 8 = 0 ->
  file <> [] ->
  Z.of_nat (length file) + BLOOM_SIZE - 1 <= SIZE_MAX ->
  ceil_div (Z.of_nat (length file)) BLOOM_SIZE <= INT_MAX ->
  Z.of_nat (length fs)
    = determine_optimal_bloom_filters
        (get_file_size (Some (Z.of_nat (length file)))) ->
  Forall (fun f => exists a, create_bloom_filter a BLOOM_SIZE = Some f) fs ->
  1 <= Z.of_nat (length fs) /\
  exists fs',
    split_into_bloom_filters (Some file) fs (Z.of_nat (length fs)) = Done fs' /\
    forall k, k ∈ key_of_line <$> corpus_lines file ->
      contains_any fs' k = Some true.
Proof.
  intros [Hpos HB] H8 Hne Hsum Hq Hlen Hcr.
  assert (0 < Z.of_nat (length file)) as Hfl by (destruct file; [done | simpl; lia]).
  assert (get_file_size (Some (Z.of_nat (length file))) = Z.of_nat (length file))
    as Eg.
  { unfold get_file_size, to_size_t, SIZE_MAX in *. apply Z.mod_small. lia. }
  rewrite Eg, determine_optimal_bloom_filters_exact in Hlen by (done || lia).
  pose proof (ceil_div_bounds (Z.of_nat (length file)) BLOOM_SIZE Hpos) as Hb.
  assert (1 <= Z.of_nat (length fs)) as Hn by nia.
  split; [done|].
  assert (Forall covers_hashes fs) as Hcov.
  { eapply Forall_impl; [exact Hcr|]. intros f (a & Hf).
    apply (create_covers a BLOOM_SIZE); [|lia|done].
    rewrite multiple_of_8; [lia|done]. }
  destruct (populate_run fs file (Z.of_nat (length fs)) Hpos
              ltac:(unfold INT_MAX, SIZE_MAX in *; lia) eq_refl Hcov)
    as (st & Hrun & _ & Hinv & _ & _ & Htrace).
  exists (filters st).
  split; [unfold split_into_bloom_filters; by rewrite Hrun|].
  intros k Hk. rewrite <- Htrace, elem_of_reverse in Hk.
  apply list_elem_of_fmap in Hk as ([i k'] & -> & Hin).
  destruct Hinv as [_ _ Hc' Hpres].
  destruct (Hpres i k' Hin) as (F & HF & Hcon).
  by eapply contains_any_true.
Qed.

(** ** The planned number of filters *)

Lemma lines_bound (ls : list (list byte)) :
  Forall (fun l => (8 <= length l)%nat) ls ->
  (8 * length ls <= length (concat ls))%nat.
Proof.
  induction 1 as [|l ls Hl _ IH]; [done|].
  cbn [concat length]. rewrite length_app. lia.
Qed.

Lemma rotate_fill (T n : Z) (ks : list (list byte)) :
  0 < BLOOM_SIZE -> 0 < T ->
  forall (fs : list BloomFilter) (c t : Z),
    Z.of_nat (length fs) = n ->
    (forall i f, fs !! i = Some f ->
       size f / 8 = T /\ covers_hashes f /\ count f = fill T t (Z.of_nat i)) ->
    0 <= t -> t + Z.of_nat (length ks) <= n * T ->
    0 <= c < n -> (t < n * T -> T * c <= t < T * c + T) ->
    exists fs' c',
      rotate fs c ks = Some (fs', c') /\
      length fs' = length fs /\
      forall i f', fs' !! i = Some f' ->
        count f' = fill T (t + Z.of_nat (length ks)) (Z.of_nat i).
Proof.
  intros Hpos HT. induction ks as [|k ks IH]; intros fs c t Hn Hfs Ht Hsum Hc Hcur.
  - exists fs, c. cbn [rotate length]. do 2 (split; [done|]).
    intros i f' Hi. rewrite Z.add_0_r. by apply Hfs.
  - cbn [length] in Hsum. rewrite Nat2Z.inj_succ in Hsum.
    specialize (Hcur ltac:(lia)).
    destruct (lookup_lt_is_Some_2 fs (Z.to_nat c)) as [f0 H0]; [lia|].
    destruct (Hfs _ _ H0) as (S0 & C0 & N0).
    rewrite Z2Nat.id in N0 by lia.
    destruct (bloom_insert_defined f0 k Hpos C0) as [f1 H1].
    destruct (bloom_insert_effect _ _ _ H1) as (S1 & N1 & _ & _).
    pose proof (bloom_insert_covers _ _ _ C0 H1) as C1.
    assert (count f0 = t - c * T) as E0 by (unfold fill in N0; nia).
    cbn [rotate]. rewrite H0. cbn [mbind option_bind].
    rewrite H1. cbn [mbind option_bind].
    destruct (IH (<[Z.to_nat c := f1]> fs)
                (if bloom_filter_is_full f1
                 then (c + 1) mod Z.of_nat (length fs) else c) (t + 1))
      as (fs' & c' & Hrot & Hlen & Hcnt).
    + by rewrite length_insert.
    + intros i f Hi.
      destruct (decide (i = Z.to_nat c)) as [->|Hne].
      * rewrite list_lookup_insert_eq in Hi by (by eapply lookup_lt_Some).
        simplify_eq. rewrite S1. do 2 (split; [done|]).
        rewrite Z2Nat.id by lia. unfold fill. nia.
      * rewrite list_lookup_insert_ne in Hi by done.
        destruct (Hfs _ _ Hi) as (Si & Ci & Ni). do 2 (split; [done|]).
        rewrite Ni. unfold fill.
        destruct (Z.lt_ge_cases (Z.of_nat i) c) as [Hlt|Hge].
        -- assert (T * (Z.of_nat i + 1) <= T * c) by nia. nia.
        -- assert (Z.of_nat i <> c) by lia.
           assert (T * (c + 1) <= T * Z.of_nat i) by nia. nia.
    + lia.
    + lia.
    + destruct (bloom_filter_is_full f1); [|done].
      rewrite Hn. apply Z.mod_pos_bound. lia.
    + intros Hlt. unfold bloom_filter_is_full. rewrite S1, S0, N1, E0, Hn.
      destruct (Z.leb_spec T (t - c * T + 1)) as [Hfull|Hnot].
      * assert (c + 1 < n) by nia.
        rewrite Z.mod_small by lia. nia.
      * nia.
    + exists fs', c'. split; [exact Hrot|].
      split; [by rewrite Hlen, length_insert|].
      intros i f' Hi. rewrite (Hcnt i f' Hi). f_equal.
      cbn [length]. rewrite Nat2Z.inj_succ. lia.
Qed.

(** X22.  The planned number of filters is enough.  For a non-empty file
    within the bounds of the planner whose lines have at least 8 characters,
    populated into the planned number of filters, each created with capacity
    [BLOOM_SIZE]: the filters fill up in order, filter [i] ending with
    [min (BLOOM_SIZE / 8) (lines - i * BLOOM_SIZE / 8)] inserts or none, so
    that no filter takes more than the [BLOOM_SIZE / 8] inserts at which it
    reports full. *)
Theorem planned_filters_suffice (fs : list BloomFilter) (file : list byte) :
  0 < BLOOM_SIZE <= SIZE_MAX -> BLOOM_SIZE mod 8 = 0 ->
  file <> [] ->
  Z.of_nat (length file) + BLOOM_SIZE - 1 <= SIZE_MAX ->
  ceil_div (Z.of_nat (length file)) BLOOM_SIZE <= INT_MAX ->
  Z.of_nat (length fs)
    = determine_optimal_bloom_filters
        (get_file_size (Some (Z.of_nat (length file)))) ->
  Forall (fun f => exists a, create_bloom_filter a BLOOM_SIZE = Some f) fs ->
  Forall (fun l => (8 <= length l)%nat) (corpus_lines file) ->
  exists fs',
    split_into_bloom_filters (Some file) fs (Z.of_nat (length fs)) = Done fs' /\
    length fs' = length fs /\
    forall i f', fs' !! i = Some f' ->
      count f' = fill (BLOOM_SIZE / 8)
                   (Z.of_nat (length (corpus_lines file))) (Z.of_nat i) /\
      count f' <= BLOOM_SIZE / 8.
Proof.
  intros [Hpos HB] H8 Hne Hsum Hq Hlen Hcr Hlines.
  assert (0 < Z.of_nat (length file)) as Hfl by (destruct file; [done | simpl; lia]).
  assert (get_file_size (Some (Z.of_nat (length file))) = Z.of_nat (length file))
    as Eg.
  { unfold get_file_size, to_size_t, SIZE_MAX in *. apply Z.mod_small. lia. }
  rewrite Eg, determine_optimal_bloom_filters_exact in Hlen by (done || lia).
  pose proof (ceil_div_bounds (Z.of_nat (length file)) BLOOM_SIZE Hpos) as Hb.
  pose proof (multiple_of_8 _ H8) as E8.
  assert (0 < BLOOM_SIZE / 8) as HT by lia.
  assert (1 <= Z.of_nat (length fs)) as Hn by nia.
  assert (Forall covers_hashes fs) as Hcov.
  { eapply Forall_impl; [exact Hcr|]. intros f (a & Hf).
    apply (create_covers a BLOOM_SIZE); [|lia|done]. lia. }
  pose proof (lines_bound _ Hlines) as Hlb.
  unfold corpus_lines in Hlb at 2.
  rewrite (split_lines_concat (S (length file)) file) in Hlb by lia.
  destruct (rotate_fill (BLOOM_SIZE / 8) (Z.of_nat (length fs))
              (key_of_line <$> corpus_lines file) Hpos HT fs 0 0)
    as (fs' & c' & Hrot & Hl' & Hcnt); try (done || lia).
  - intros i f Hi. split; [|split].
    + destruct (proj1 (Forall_lookup _ _) Hcr i f Hi) as (a & Ha).
      apply create_bloom_filter_Some in Ha. by rewrite Ha.
    + by eapply Forall_lookup_1.
    + destruct (proj1 (Forall_lookup _ _) Hcr i f Hi) as (a & Ha).
      apply create_bloom_filter_Some in Ha. rewrite Ha. unfold fill. simpl. nia.
  - rewrite length_fmap. nia.
  - destruct (populate_run_at fs file (Z.of_nat (length fs)) 0 Hpos
                ltac:(unfold INT_MAX, SIZE_MAX in *; lia) ltac:(lia) eq_refl Hcov)
      as (st & Hrun & _ & _ & Hrot').
    rewrite Hrot in Hrot'. injection Hrot' as Ef _.
    exists fs'. split; [unfold split_into_bloom_filters; by rewrite Hrun, Ef|].
    split; [done|]. intros i f' Hi.
    rewrite (Hcnt i f' Hi), length_fmap. split; [done|]. unfold fill. lia.
Qed.

(** ** Allocation and release *)

Lemma create_blocks_shape (a : allocator) (h : gset nat) :
  match create_bloom_filter_blocks a h with
  | None => False
  | Some (None, h') =>
      h' = h /\ (malloc_ok a = false \/ calloc_ok a = false)
  | Some (Some p, h') =>
      (struct_block p ∉ h) /\ (array_block p ∉ h) /\
      struct_block p <> array_block p /\
      h' = {[struct_block p; array_block p]} ∪ h /\
      malloc_ok a = true /\ calloc_ok a = true
  end.
Proof.
  unfold create_bloom_filter_blocks, malloc, free.
  pose proof (is_fresh h) as F1.
  pose proof (is_fresh ({[fresh h]} ∪ h)) as F2.
  rewrite elem_of_union, elem_of_singleton in F2.
  destruct (malloc_ok a); [|by split; [|left]].
  destruct (calloc_ok a).
  - cbn [struct_block array_block].
    split; [done|]. split; [tauto|]. split; [intros E; rewrite <- E in F2; tauto|].
    split; [|done].
    apply set_eq. intros z.
    rewrite !elem_of_union, !elem_of_singleton. tauto.
  - rewrite decide_True by (apply elem_of_union; left; by apply elem_of_singleton).
    cbn [mbind option_bind]. split; [|by right].
    apply set_eq. intros z.
    rewrite elem_of_difference, elem_of_union, elem_of_singleton.
    split; [tauto|]. intros Hz. split; [tauto|]. by intros ->.
Qed.

(** X20.  The allocations of a creation.  It is never undefined; when it
    returns NULL the heap is what it was, so nothing leaks when the second
    allocation fails; when it returns a filter, two distinct blocks that were
    not live have become live and nothing else has changed.  It returns NULL
    exactly when [create_bloom_filter] returns no filter. *)
Theorem create_bloom_filter_allocations (a : allocator) (capacity : Z)
    (h : gset nat) :
  match create_bloom_filter_blocks a h with
  | None => False
  | Some (None, h') => h' = h /\ create_bloom_filter a capacity = None
  | Some (Some p, h') =>
      (struct_block p ∉ h) /\ (array_block p ∉ h) /\
      struct_block p <> array_block p /\
      h' = {[struct_block p; array_block p]} ∪ h /\
      is_Some (create_bloom_filter a capacity)
  end.
Proof.
  pose proof (create_blocks_shape a h) as H.
  destruct (create_bloom_filter_blocks a h) as [[[p|] h']|]; [| |done].
  - destruct H as (H1 & H2 & H3 & H4 & Hm & Hc). do 4 (split; [done|]).
    unfold create_bloom_filter. rewrite Hm, Hc. by eexists.
  - destruct H as (H1 & Hf). split; [done|].
    unfold create_bloom_filter. destruct Hf as [-> | ->]; [done|].
    by destruct (malloc_ok a).
Qed.

(** X21.  Creation and release.  Releasing a filter right after its creation
    gives back the heap as it was before the creation; releasing it a second
    time, or releasing NULL, is undefined. *)
Theorem create_then_free (a : allocator) (h : gset nat) :
  match create_bloom_filter_blocks a h with
  | Some (Some p, h') =>
      free_bloom_filter (Some p) h' = Some h /\
      (free_bloom_filter (Some p) h' ≫= free_bloom_filter (Some p)) = None
  | _ => True
  end /\
  free_bloom_filter None h = None.
Proof.
  split; [|done].
  pose proof (create_blocks_shape a h) as Ha.
  destruct (create_bloom_filter_blocks a h) as [[[p|] h']|]; [|done..].
  destruct Ha as (Hs & Ha & Hne & -> & _).
  assert (free_bloom_filter (Some p) ({[struct_block p; array_block p]} ∪ h)
          = Some h) as E.
  { unfold free_bloom_filter, free.
    rewrite decide_True
      by (rewrite !elem_of_union, !elem_of_singleton; tauto).
    rewrite decide_True
      by (rewrite !elem_of_union, !elem_of_singleton; tauto).
    cbn [mbind option_bind].
    rewrite decide_True
      by (rewrite elem_of_difference, !elem_of_union, !elem_of_singleton; tauto).
    f_equal. apply set_eq. intros z.
    rewrite !elem_of_difference, !elem_of_union, !elem_of_singleton.
    split; [tauto|]. intros Hz.
    repeat split; [tauto | by intros -> | by intros ->]. }
  split; [done|]. rewrite E. cbn [mbind option_bind].
  unfold free_bloom_filter. by rewrite decide_False.
Qed.

End Bloom.

(** * Evaluation on concrete inputs

    The theorems applied, and the code run, with the hash function of xxHash
    and small values of [BLOOM_SIZE]. *)

Import Sample.

(** The hash function on the test vectors of the library. *)
Example XXH32_vectors :
  XXHash.XXH32 [] 0 = 0x02CC5D05 /\
  XXHash.XXH32 key_a 0 = 0x550D7456 /\
  XXHash.XXH32 bytes_abc 0 = 0x32D153FF /\
  XXHash.XXH32 spammish 0 = 0xE2293B2F.
Proof. repeat split; vm_compute; reflexivity. Qed.

(** A run on two shards of 16 bits, which report full after two inserts: the
    first two keys go to shard 0, the short line and the last key to shard 1,
    and the cursor is back at 0. *)
Example populate_corpus :
  summary (populate_recursive_bloom_filters 16 XXHash.XXH32
             [fresh 16; fresh 16] corpus 2 0)
  = Some ([(0, key_1); (0, key_2); (1, short_line); (1, key_3)],
          [{| bit_array := [39; 17]; size := 16; count := 2 |};
           {| bit_array := [132; 144]; size := 16; count := 2 |}],
          0, []) /\
  contains_any 16 XXHash.XXH32
    [{| bit_array := [39; 17]; size := 16; count := 2 |};
     {| bit_array := [132; 144]; size := 16; count := 2 |}]
    <$> [key_1; key_2; short_line; key_3; key_a]
  = [Some true; Some true; Some true; Some true; Some false].
Proof. split; vm_compute; reflexivity. Qed.

(** Two more lines: both shards are full already and take one more key each,
    the cursor moving on after each insert. *)
Example populate_past_capacity :
  summary (populate_recursive_bloom_filters 16 XXHash.XXH32
             [fresh 16; fresh 16] longer 2 0)
  = Some ([(0, key_1); (0, key_2); (1, short_line); (1, key_3);
           (0, short_line); (1, key_1)],
          [{| bit_array := [167; 145]; size := 16; count := 3 |};
           {| bit_array := [134; 144]; size := 16; count := 3 |}],
          0, []).
Proof. vm_compute. reflexivity. Qed.

(** The same run when the first shard is too small for [BLOOM_SIZE]. *)
Example populate_small_shard :
  populate_recursive_bloom_filters 16 XXHash.XXH32 [fresh 8; fresh 16]
    corpus 2 0 = Undefined.
Proof. vm_compute. reflexivity. Qed.

Lemma no_false_negatives_single_filter_witness :
  exists F1 F2 F3,
    bloom_insert_all 64 XXHash.XXH32 (fresh 64) [key_2] = Some F1 /\
    bloom_insert 64 XXHash.XXH32 F1 key_1 = Some F2 /\
    bloom_contains 64 XXHash.XXH32 F2 key_1 = Some true /\
    bloom_insert_all 64 XXHash.XXH32 F2 [key_3; key_a] = Some F3 /\
    bloom_contains 64 XXHash.XXH32 F3 key_1 = Some true.
Proof.
  apply (no_false_negatives_single_filter 64 XXHash.XXH32 ok (fresh 64)
           [key_2] [key_3; key_a] key_1); [lia | reflexivity | reflexivity].
Defined.

Lemma no_false_negatives_shard_set_witness :
  exists st,
    populate_recursive_bloom_filters 16 XXHash.XXH32 [fresh 16; fresh 16]
      corpus 2 0 = Done st /\
    split_into_bloom_filters 16 XXHash.XXH32 (Some corpus)
      [fresh 16; fresh 16] 2 = Done (filters st) /\
    reverse (inserted st).*2 = key_of_line <$> corpus_lines corpus /\
    forall k, k ∈ key_of_line <$> corpus_lines corpus ->
      contains_any 16 XXHash.XXH32 (filters st) k = Some true /\
      exists i F, filters st !! i = Some F /\
                  bloom_contains 16 XXHash.XXH32 F k = Some true.
Proof.
  apply (no_false_negatives_shard_set 16 XXHash.XXH32 [fresh 16; fresh 16]
           corpus 2);
    [lia | unfold SIZE_MAX; lia | reflexivity
    | repeat constructor; unfold covers_hashes; simpl; lia].
Defined.

(** C3: the claim fails on a filter whose capacity is not [BLOOM_SIZE].  With
    [BLOOM_SIZE = 64], a filter created with capacity 128 and the key ["a"]:
    the hash with seed 0 reduced modulo the capacity is 86, and bit 86 is
    still clear after the insert; the bit the insert sets for that seed is
    22, the hash reduced modulo [BLOOM_SIZE]. *)
Lemma bloom_insert_modulus_counterexample :
  exists F F',
    create_bloom_filter ok 128 = Some F /\
    bloom_insert 64 XXHash.XXH32 F key_a = Some F' /\
    to_uint32 (XXHash.XXH32 key_a 0) mod size F = 86 /\
    get_bit (bit_array F') 86 = Some 0 /\
    to_uint32 (XXHash.XXH32 key_a 0) mod 64 = 22 /\
    get_bit (bit_array F') 22 = Some 64.
Proof.
  exists (fresh 128).
  exists {| bit_array := [128; 0; 64; 0; 0; 128; 0; 0; 0; 0; 0; 0; 0; 0; 0; 0];
            size := 128; count := 1 |}.
  repeat split; vm_compute; reflexivity.
Qed.

Lemma bloom_insert_semantics_witness :
  exists filter',
    bloom_insert 64 XXHash.XXH32 (fresh 128) key_a = Some filter' /\
    xxhash1 64 XXHash.XXH32 key_a
      = to_uint32 (XXHash.XXH32 (take (strlen key_a) key_a) 0) mod 64 /\
    xxhash2 64 XXHash.XXH32 key_a
      = to_uint32 (XXHash.XXH32 (take (strlen key_a) key_a) 1) mod 64 /\
    xxhash3 64 XXHash.XXH32 key_a
      = to_uint32 (XXHash.XXH32 (take (strlen key_a) key_a) 2) mod 64 /\
    (forall i, 0 <= i ->
       bit_set (bit_array filter') i <->
       bit_set (bit_array (fresh 128)) i \/
       i = xxhash1 64 XXHash.XXH32 key_a \/
       i = xxhash2 64 XXHash.XXH32 key_a \/
       i = xxhash3 64 XXHash.XXH32 key_a) /\
    size filter' = size (fresh 128) /\
    count filter' = count (fresh 128) + 1 /\
    bloom_insert 64 XXHash.XXH32 filter' key_a =
      Some {| bit_array := bit_array filter';
              size := size filter';
              count := count filter' + 1 |}.
Proof.
  apply (bloom_insert_semantics 64 XXHash.XXH32 (fresh 128) key_a);
    [lia | unfold covers_hashes; simpl; lia].
Defined.

(** C4: an instance on which the claim fails.  With [BLOOM_SIZE = 64], the
    filter created with capacity 8 satisfies the invariants, and the insert
    of the key ["a"] asks for bit 22, which is outside [0, 8) and outside the
    one-byte array: this insert is an access out of bounds. *)
Lemma filter_invariant_counterexample :
  exists F,
    create_bloom_filter ok 8 = Some F /\
    filter_inv F /\
    xxhash1 64 XXHash.XXH32 key_a = 22 /\
    size F <= 22 /\
    length (bit_array F) = 1%nat /\
    bloom_insert 64 XXHash.XXH32 F key_a = None.
Proof.
  exists (fresh 8). split; [reflexivity|].
  split; [by apply (create_inv ok 8)|].
  split; [vm_compute; reflexivity|].
  split; [simpl; lia|].
  split; vm_compute; reflexivity.
Qed.

Lemma filter_invariant_preserved_witness :
  filter_inv (fresh 64) /\
  exists F',
    bloom_insert_all 64 XXHash.XXH32 (fresh 64) [key_1; key_2; key_1] = Some F' /\
    filter_inv F' /\
    size F' = 64 /\
    forall i, 0 <= i ->
      bit_set (bit_array F') i <->
      exists k, k ∈ [key_1; key_2; key_1] /\ i ∈ positions 64 XXHash.XXH32 k.
Proof.
  apply (filter_invariant_preserved 64 XXHash.XXH32 ok 64 (fresh 64)
           [key_1; key_2; key_1]);
    [change (64 / 8) with 8; lia | reflexivity].
Defined.

Lemma fullness_threshold_witness :
  (forall f, bloom_filter_is_full f = true <-> count f >= size f / 8) /\
  (forall j, (j <= 100)%nat ->
     exists Fj,
       bloom_insert_all 800 XXHash.XXH32 (fresh 800) (take j hundred_keys)
         = Some Fj /\
       count Fj = Z.of_nat j /\
       bloom_filter_is_full Fj = bool_decide (j = 100%nat)).
Proof.
  apply (fullness_threshold 800 XXHash.XXH32 ok (fresh 800) hundred_keys);
    [lia | reflexivity | reflexivity].
Defined.

Lemma round_robin_rotation_witness :
  exists st,
    populate_recursive_bloom_filters 16 XXHash.XXH32 [fresh 16; fresh 16]
      corpus 2 0 = Done st /\
    split_into_bloom_filters 16 XXHash.XXH32 (Some corpus)
      [fresh 16; fresh 16] 2 = Done (filters st) /\
    current_filter (entry_state [fresh 16; fresh 16] corpus 0) = 0 /\
    concat (corpus_lines corpus) = corpus /\
    pwned_file st = [] /\
    rotate 16 XXHash.XXH32 [fresh 16; fresh 16] 0
      (key_of_line <$> corpus_lines corpus)
      = Some (filters st, current_filter st) /\
    forall st1 line' rest,
      reaches 16 XXHash.XXH32 2 (entry_state [fresh 16; fresh 16] corpus 0) st1 ->
      fgets (line st1) 128 (pwned_file st1) = Some (line', rest) ->
      exists l F F' st2,
        read_line 127 (pwned_file st1) = (l, rest) /\
        filters st1 !! Z.to_nat (current_filter st1) = Some F /\
        bloom_insert 16 XXHash.XXH32 F (key_of_line l) = Some F' /\
        populate_body 16 XXHash.XXH32 2 st1 line' rest = Some st2 /\
        filters st2 = <[Z.to_nat (current_filter st1) := F']> (filters st1) /\
        current_filter st2 =
          (if bloom_filter_is_full F'
           then (current_filter st1 + 1) mod 2
           else current_filter st1).
Proof.
  apply (round_robin_rotation 16 XXHash.XXH32 [fresh 16; fresh 16] corpus 2);
    [lia | unfold SIZE_MAX; lia | reflexivity
    | repeat constructor; unfold covers_hashes; simpl; lia].
Defined.

(** C7: the claim fails where the C arithmetic wraps around.  With
    [BLOOM_SIZE = 67108864] and a file size of [SIZE_MAX], the sum
    [file_size + filter_size_bits - 1] wraps to 67108862 and the planner
    returns 0, where the ceiling is 274877906944.  With [BLOOM_SIZE = 1] and
    2147483648 bytes the quotient does not fit [int]. *)
Lemma planner_overflow_counterexample :
  0 <= SIZE_MAX <= SIZE_MAX /\
  determine_optimal_bloom_filters 67108864 SIZE_MAX = 0 /\
  ceil_div SIZE_MAX 67108864 = 274877906944 /\
  determine_optimal_bloom_filters 1 2147483648 = -2147483648 /\
  ceil_div 2147483648 1 = 2147483648.
Proof.
  split; [unfold SIZE_MAX; lia|]. repeat split; vm_compute; reflexivity.
Qed.

Lemma planner_ceiling_witness :
  determine_optimal_bloom_filters 67108864 1000000000
    = ceil_div 1000000000 67108864 /\
  67108864 * (determine_optimal_bloom_filters 67108864 1000000000 - 1)
    < 1000000000
    <= 67108864 * determine_optimal_bloom_filters 67108864 1000000000 /\
  determine_optimal_bloom_filters 67108864 0 = 0 /\
  (2 * 67108864 - 1 <= SIZE_MAX ->
   determine_optimal_bloom_filters 67108864 67108864 = 1) /\
  (2 * 67108864 <= SIZE_MAX ->
   determine_optimal_bloom_filters 67108864 (67108864 + 1) = 2) /\
  (forall n, 0 < n <= INT_MAX ->
     n * 67108864 + 67108864 - 1 <= SIZE_MAX ->
     determine_optimal_bloom_filters 67108864 (n * 67108864) = n).
Proof.
  apply (planner_ceiling 67108864 1000000000);
    [unfold SIZE_MAX; lia | lia | unfold SIZE_MAX; lia |].
  apply Z.leb_le. vm_compute. reflexivity.
Defined.

(** C8: the negation of the claim.  There is no line shorter than 10
    characters, and no earlier content of the buffers, for which the key
    extraction is undefined or yields anything but the characters of the line
    itself: nothing past the terminator of the line is read. *)
Lemma short_line_counterexample :
  ~ exists (buf hp : list cell) (stream rest : list byte) (line' : list cell),
      length hp = 11%nat /\
      fgets buf 128 stream = Some (line', rest) /\
      (length (read_line 127 stream).1 < 10)%nat /\
      extract_key hp line'
        <> Some ((Some <$> copied (read_line 127 stream).1 10) ++ [Some x00],
                 key_of_line (read_line 127 stream).1).
Proof.
  intros (buf & hp & stream & rest & line' & Hhp & Hg & _ & Hne).
  destruct (key_extraction _ _ _ _ _ Hhp Hg) as (l & Hl & He).
  rewrite Hl in Hne. simpl in Hne. by apply Hne.
Qed.

Lemma short_line_key_witness :
  exists l,
    read_line 127 short_first = (l, short_rest) /\
    extract_key (replicate 11 None)
      (store_bytes (replicate 128 None) (short_line ++ [x00]))
      = Some ((Some <$> copied l 10) ++ [Some x00], key_of_line l) /\
    ((length l < 10)%nat ->
     key_of_line l = take (strlen l) l /\
     copied l 10 = take (strlen l) l ++ replicate (10 - strlen l) x00).
Proof.
  apply (short_line_key (replicate 128 None) (replicate 11 None) short_first
           (store_bytes (replicate 128 None) (short_line ++ [x00]))
           short_rest);
    reflexivity.
Defined.

(** C9: the claim fails for a capacity below [BLOOM_SIZE].  With
    [BLOOM_SIZE = 64], the filter created with capacity 8, a multiple of 8,
    has one byte, and [bloom_contains] for the key ["a"] reads byte 2 of it:
    the query is an access out of bounds, not a negative answer. *)
Lemma create_bloom_filter_counterexample :
  exists F,
    8 mod 8 = 0 /\
    create_bloom_filter ok 8 = Some F /\
    bit_array F = [0] /\
    xxhash1 64 XXHash.XXH32 key_a / 8 = 2 /\
    bloom_contains 64 XXHash.XXH32 F key_a = None.
Proof.
  exists (fresh 8). repeat split; vm_compute; reflexivity.
Qed.

Lemma create_bloom_filter_result_witness :
  match create_bloom_filter ok 64 with
  | None => malloc_ok ok = false \/ calloc_ok ok = false
  | Some F =>
      malloc_ok ok = true /\ calloc_ok ok = true /\
      bit_array F = replicate (Z.to_nat (64 / 8)) 0 /\
      Z.of_nat (length (bit_array F)) = 64 / 8 /\
      size F = 64 /\
      count F = 0 /\
      (64 <= 64 -> forall k, bloom_contains 64 XXHash.XXH32 F k = Some false)
  end.
Proof.
  apply (create_bloom_filter_result 64 XXHash.XXH32 ok 64);
    [lia | lia | reflexivity].
Defined.

Lemma populator_index_safety_witness :
  (1 <= 2 ->
   forall st,
     reaches 16 XXHash.XXH32 2 (entry_state [fresh 16; fresh 16] corpus 0) st ->
     0 <= current_filter st < 2 /\
     is_Some (filters st !! Z.to_nat (current_filter st)) /\
     forall i k, (i, k) ∈ inserted st ->
       0 <= i < 2 /\ is_Some (filters st !! Z.to_nat i)) /\
  (1 <= 2 -> 0 < 16 -> Forall (covers_hashes 16) [fresh 16; fresh 16] ->
   exists st,
     populate_recursive_bloom_filters 16 XXHash.XXH32 [fresh 16; fresh 16]
       corpus 2 0 = Done st /\
     reaches 16 XXHash.XXH32 2 (entry_state [fresh 16; fresh 16] corpus 0) st) /\
  (2 = 0 -> corpus <> [] ->
   populate_recursive_bloom_filters 16 XXHash.XXH32 [fresh 16; fresh 16]
     corpus 2 0 = Undefined) /\
  (forall st st' line' rest,
     populate_body 16 XXHash.XXH32 0 st line' rest = Some st' ->
     exists F', filters st' !! Z.to_nat (current_filter st) = Some F' /\
                bloom_filter_is_full F' = false).
Proof.
  apply (populator_index_safety 16 XXHash.XXH32 [fresh 16; fresh 16] corpus 2);
    [reflexivity | unfold SIZE_MAX; lia].
Defined.

(** ** The further properties on concrete inputs *)

Lemma set_bit_get_bit_witness :
  get_bit [0; 2] 9 = Some (Z.shiftl 1 (9 mod 8)) /\
  (3 <> 9 -> get_bit [0; 2] 3 = get_bit [0; 0] 3).
Proof.
  apply (set_bit_get_bit [0; 0] [0; 2] 9 3); [lia | lia | reflexivity].
Defined.

Lemma bloom_insert_frame_witness :
  let f' := {| bit_array := [128; 0; 64; 0; 0; 128; 0; 0];
               size := 64; count := 1 |} in
  (forall n, (forall p, p ∈ positions 64 XXHash.XXH32 key_a ->
                        n <> Z.to_nat (p / 8)) ->
     bit_array f' !! n = bit_array (fresh 64) !! n) /\
  (forall i, 0 <= i -> bit_set (bit_array (fresh 64)) i ->
             bit_set (bit_array f') i) /\
  (uint8_array (bit_array (fresh 64)) -> uint8_array (bit_array f')) /\
  size f' = size (fresh 64) /\
  length (bit_array f') = length (bit_array (fresh 64)).
Proof.
  apply (bloom_insert_frame 64 XXHash.XXH32 (fresh 64)
           {| bit_array := [128; 0; 64; 0; 0; 128; 0; 0];
              size := 64; count := 1 |} key_a).
  reflexivity.
Defined.

Lemma bloom_insert_all_permutation_witness :
  bloom_insert_all 64 XXHash.XXH32 (fresh 64) [key_1; key_2]
  = bloom_insert_all 64 XXHash.XXH32 (fresh 64) [key_2; key_1].
Proof.
  apply (bloom_insert_all_permutation 64 XXHash.XXH32 (fresh 64)
           [key_1; key_2] [key_2; key_1]).
  apply perm_swap.
Defined.

Lemma bloom_insert_duplicate_witness :
  let f' := {| bit_array := [0; 17; 2; 0; 32; 0; 5; 0];
               size := 64; count := 2 |} in
  bloom_insert 64 XXHash.XXH32 f' key_1
  = Some {| bit_array := bit_array f'; size := size f'; count := count f' + 1 |}.
Proof.
  apply (bloom_insert_duplicate 64 XXHash.XXH32 (fresh 64)
           {| bit_array := [0; 17; 2; 0; 32; 0; 5; 0]; size := 64; count := 2 |}
           [key_1; key_2] key_1); [reflexivity | apply list_elem_of_here].
Defined.

Lemma bloom_contains_exact_witness :
  exists F',
    bloom_insert_all 64 XXHash.XXH32 (fresh 64) [key_1; key_2] = Some F' /\
    (bloom_contains 64 XXHash.XXH32 F' key_3 = Some true <->
     forall p, p ∈ positions 64 XXHash.XXH32 key_3 ->
       exists k', k' ∈ [key_1; key_2] /\ p ∈ positions 64 XXHash.XXH32 k') /\
    (bloom_contains 64 XXHash.XXH32 F' key_3 = Some false <->
     exists p, p ∈ positions 64 XXHash.XXH32 key_3 /\
       forall k', k' ∈ [key_1; key_2] -> p ∉ positions 64 XXHash.XXH32 k').
Proof.
  apply (bloom_contains_exact 64 XXHash.XXH32 ok 64 (fresh 64)
           [key_1; key_2] key_3);
    [change (64 / 8) with 8; lia | reflexivity].
Defined.

Lemma fullness_after_inserts_witness :
  exists F' F'',
    bloom_insert_all 16 XXHash.XXH32 (fresh 16) [key_1; key_2] = Some F' /\
    bloom_insert_all 16 XXHash.XXH32 F' [key_3] = Some F'' /\
    (bloom_filter_is_full F' = true <->
     16 / 8 <= Z.of_nat (length [key_1; key_2])) /\
    (bloom_filter_is_full F' = true -> bloom_filter_is_full F'' = true).
Proof.
  apply (fullness_after_inserts 16 XXHash.XXH32 ok 16 (fresh 16)
           [key_1; key_2] [key_3]);
    [change (16 / 8) with 2; lia | reflexivity].
Defined.

Lemma keys_end_at_nul_witness :
  bloom_insert 64 XXHash.XXH32 (fresh 64) (key_1 ++ x00 :: key_2)
  = bloom_insert 64 XXHash.XXH32 (fresh 64) key_1 /\
  bloom_contains 64 XXHash.XXH32 (fresh 64) (key_1 ++ x00 :: key_2)
  = bloom_contains 64 XXHash.XXH32 (fresh 64) key_1.
Proof.
  apply (keys_end_at_nul 64 XXHash.XXH32 (fresh 64) key_1 key_2).
  repeat constructor.
Defined.

Lemma planner_monotone_witness :
  determine_optimal_bloom_filters 67108864 1000
    <= determine_optimal_bloom_filters 67108864 1000000000 /\
  0 <= determine_optimal_bloom_filters 67108864 1000 /\
  (determine_optimal_bloom_filters 67108864 1000000000 = 0 <-> 1000000000 = 0).
Proof.
  apply (planner_monotone 67108864 1000 1000000000);
    [unfold SIZE_MAX; lia | lia | unfold SIZE_MAX; lia |].
  apply Z.leb_le. vm_compute. reflexivity.
Defined.

Lemma unreachable_file_plans_nothing_witness :
  get_file_size None = get_file_size (Some 0) /\
  determine_optimal_bloom_filters 67108864 (get_file_size None) = 0 /\
  get_file_size (Some 1000000000) = 1000000000.
Proof.
  apply (unreachable_file_plans_nothing 67108864 1000000000);
    unfold SIZE_MAX; lia.
Defined.

Lemma one_key_per_line_witness :
  exists st,
    populate_recursive_bloom_filters 16 XXHash.XXH32 [fresh 16; fresh 16]
      corpus 2 0 = Done st /\
    reverse (inserted st).*2 = key_of_line <$> text_lines corpus.
Proof.
  apply (one_key_per_line 16 XXHash.XXH32 [fresh 16; fresh 16] corpus 2);
    [lia | unfold SIZE_MAX; lia | reflexivity
    | repeat constructor; unfold covers_hashes; simpl; lia
    | vm_compute; repeat constructor].
Defined.

Lemma long_line_is_cut_witness :
  exists st l2 rest keys,
    populate_recursive_bloom_filters 16 XXHash.XXH32 [fresh 16; fresh 16]
      long_line 2 0 = Done st /\
    drop 127 long_line = l2 ++ rest /\ l2 <> [] /\
    reverse (inserted st).*2
      = key_of_line (take 127 long_line) :: key_of_line l2 :: keys.
Proof.
  apply (long_line_is_cut 16 XXHash.XXH32 [fresh 16; fresh 16] long_line 2);
    [lia | unfold SIZE_MAX; lia | reflexivity
    | repeat constructor; unfold covers_hashes; simpl; lia
    | vm_compute; repeat constructor
    | vm_compute; repeat constructor].
Defined.

Lemma full_width_key_witness :
  extract_key (replicate 11 None)
    (store_bytes (replicate 128 None) (regular_line ++ [x00]))
  = Some ((Some <$> take 10 (read_line 127 regular).1) ++ [Some x00],
          take 10 (read_line 127 regular).1).
Proof.
  apply (full_width_key (replicate 128 None) (replicate 11 None) regular
           (store_bytes (replicate 128 None) (regular_line ++ [x00]))
           regular_rest);
    [reflexivity | reflexivity | vm_compute; repeat constructor
    | vm_compute; repeat constructor].
Defined.

Lemma populate_from_cursor_witness :
  exists st,
    populate_recursive_bloom_filters 16 XXHash.XXH32 [fresh 16; fresh 16]
      corpus 2 1 = Done st /\
    pwned_file st = [] /\
    rotate 16 XXHash.XXH32 [fresh 16; fresh 16] 1
      (key_of_line <$> corpus_lines corpus)
      = Some (filters st, current_filter st) /\
    0 <= current_filter st < 2.
Proof.
  apply (populate_from_cursor 16 XXHash.XXH32 [fresh 16; fresh 16] corpus 2 1);
    [lia | unfold SIZE_MAX; lia | lia | reflexivity
    | repeat constructor; unfold covers_hashes; simpl; lia].
Defined.

Lemma cursor_out_of_range_witness :
  populate_recursive_bloom_filters 16 XXHash.XXH32 [fresh 16; fresh 16]
    corpus 2 2 = Undefined.
Proof.
  apply (cursor_out_of_range 16 XXHash.XXH32 [fresh 16; fresh 16] corpus 2 2);
    [discriminate | simpl; lia].
Defined.

Lemma single_shard_population_witness :
  exists f',
    bloom_insert_all 16 XXHash.XXH32 (fresh 16)
      (key_of_line <$> corpus_lines corpus) = Some f' /\
    split_into_bloom_filters 16 XXHash.XXH32 (Some corpus) [fresh 16] 1
      = Done [f'].
Proof.
  apply (single_shard_population 16 XXHash.XXH32 (fresh 16) corpus);
    [lia | unfold covers_hashes; simpl; lia].
Defined.

Lemma population_conserves_witness :
  exists fs',
    split_into_bloom_filters 16 XXHash.XXH32 (Some corpus)
      [fresh 16; fresh 16] 2 = Done fs' /\
    length fs' = length [fresh 16; fresh 16] /\
    total_count fs'
      = total_count [fresh 16; fresh 16]
        + Z.of_nat (length (corpus_lines corpus)) /\
    forall i f, [fresh 16; fresh 16] !! i = Some f ->
      exists f', fs' !! i = Some f' /\
        size f' = size f /\ count f <= count f' /\
        forall k, bloom_contains 16 XXHash.XXH32 f k = Some true ->
                  bloom_contains 16 XXHash.XXH32 f' k = Some true.
Proof.
  apply (population_conserves 16 XXHash.XXH32 [fresh 16; fresh 16] corpus 2);
    [lia | unfold SIZE_MAX; lia | reflexivity
    | repeat constructor; unfold covers_hashes; simpl; lia].
Defined.

Lemma untouched_shard_set_witness :
  split_into_bloom_filters 16 XXHash.XXH32 (Some corpus)
    [fresh 16; fresh 16] 2 = Done [fresh 16; fresh 16]
  <-> Some corpus = None \/ Some corpus = Some [].
Proof.
  apply (untouched_shard_set 16 XXHash.XXH32 (Some corpus)
           [fresh 16; fresh 16] 2);
    [lia | unfold SIZE_MAX; lia | reflexivity
    | repeat constructor; unfold covers_hashes; simpl; lia].
Defined.

Lemma only_the_prefix_counts_witness :
  exists fs',
    split_into_bloom_filters 16 XXHash.XXH32 (Some corpus)
      [fresh 16; fresh 16] 2 = Done fs' /\
    split_into_bloom_filters 16 XXHash.XXH32 (Some corpus_other_tails)
      [fresh 16; fresh 16] 2 = Done fs'.
Proof.
  apply (only_the_prefix_counts 16 XXHash.XXH32 [fresh 16; fresh 16]
           corpus corpus_other_tails 2);
    [lia | unfold SIZE_MAX; lia | reflexivity
    | repeat constructor; unfold covers_hashes; simpl; lia
    | vm_compute; reflexivity].
Defined.

Lemma plan_populate_query_witness :
  1 <= Z.of_nat (length (replicate 4 (fresh 16))) /\
  exists fs',
    split_into_bloom_filters 16 XXHash.XXH32 (Some regular)
      (replicate 4 (fresh 16)) (Z.of_nat (length (replicate 4 (fresh 16))))
      = Done fs' /\
    forall k, k ∈ key_of_line <$> corpus_lines regular ->
      contains_any 16 XXHash.XXH32 fs' k = Some true.
Proof.
  apply (plan_populate_query 16 XXHash.XXH32 (replicate 4 (fresh 16)) regular);
    [unfold SIZE_MAX; lia | reflexivity | discriminate
    | unfold SIZE_MAX; simpl; lia
    | apply Z.leb_le; vm_compute; reflexivity
    | vm_compute; reflexivity
    | repeat (constructor; [exists ok; reflexivity|]); constructor].
Defined.

Lemma planned_filters_suffice_witness :
  exists fs',
    split_into_bloom_filters 16 XXHash.XXH32 (Some regular)
      (replicate 4 (fresh 16)) (Z.of_nat (length (replicate 4 (fresh 16))))
      = Done fs' /\
    length fs' = length (replicate 4 (fresh 16)) /\
    forall i f', fs' !! i = Some f' ->
      count f' = fill (16 / 8) (Z.of_nat (length (corpus_lines regular)))
                   (Z.of_nat i) /\
      count f' <= 16 / 8.
Proof.
  apply (planned_filters_suffice 16 XXHash.XXH32 (replicate 4 (fresh 16))
           regular);
    [unfold SIZE_MAX; lia | reflexivity | discriminate
    | unfold SIZE_MAX; simpl; lia
    | apply Z.leb_le; vm_compute; reflexivity
    | vm_compute; reflexivity
    | repeat (constructor; [exists ok; reflexivity|]); constructor
    | vm_compute; repeat constructor].
Defined.

(** The run behind the last two: four filters planned for 57 bytes, three
    lines, two inserts into the first filter and one into the second. *)
Example populate_planned :
  determine_optimal_bloom_filters 16 (get_file_size (Some 57)) = 4 /\
  summary (populate_recursive_bloom_filters 16 XXHash.XXH32
             (replicate 4 (fresh 16)) regular 4 0)
  = Some ([(0, key_1); (0, key_2); (1, key_3)],
          [{| bit_array := [39; 17]; size := 16; count := 2 |};
           {| bit_array := [132; 16]; size := 16; count := 1 |};
           fresh 16; fresh 16],
          1, []).
Proof. split; vm_compute; reflexivity. Qed.
